(** * FastAPI-Events instrumentation: span wrappers and the patch lifecycle

    A shallow embedding of
    [opentelemetry/instrumentation/fastapi_events/__init__.py]: the three
    wrapper functions ([_handle_wrapper], [_handle_many_wrapper],
    [_dispatch_wrapper]) and the instrumentor's [_instrument] /
    [_uninstrument] methods, together with the properties the
    specification states about them.

    The repository holds two copies of the module.  The copy under
    [opentelemetry-instrumentation-fastapi_events] is the current one and
    is embedded at top level; the copy under
    [opentelemetry-instrumentation-fastapi-events] is embedded in
    [Module Legacy].  The two handling wrappers are the same text in both
    copies and are embedded once. *)

From stdpp Require Import base option list strings gmap.

Set Warnings "-register-all".

Open Scope string_scope.
Open Scope list_scope.

(** ** Python values *)

(** The values the wrappers inspect.  The wrappers use exactly three
    operations on them: truthiness of [args], subscription [x[0]] and
    formatting inside an f-string.  An object is therefore given by what
    those operations yield.  Represented are [None], strings, tuples and
    lists, and objects that have no [__getitem__]; mappings and objects
    with a [__getitem__] of their own are not. *)
Inductive Value : Type :=
| VNone
| VStr (s : string)
    (* a str, held as its UTF-8 bytes *)
| VSeq (items : list Value) (str_ : string)
    (* a tuple or list; [str_] is the text [str()] gives for it *)
| VObj (str_ : string).
    (* an object without [__getitem__] (an Enum member, a number);
       [str_] is the text [str()] gives for it *)

Inductive Exn : Type :=
| TypeError
| IndexError
| AttributeError
| CancelledError              (* asyncio.CancelledError, a BaseException *)
| Exception (msg : string).   (* any other failure of user code *)

Inductive Outcome (A : Type) : Type :=
| Return (a : A)
| Raise (e : Exn).
Arguments Return {A} a.
Arguments Raise {A} e.

(** ** The tracer, seen through the events it emits *)

Inductive SpanKind : Type := INTERNAL | SERVER | CLIENT | PRODUCER | CONSUMER.

Inductive StatusCode : Type := UNSET | ERROR.

Inductive TraceEvent : Type :=
| SpanStart (name : string) (kind : SpanKind)
| SpanEnd (name : string) (status : StatusCode)
| Invoked (target : string) (args : list Value) (kwargs : gmap string Value).
    (* body of an original callable entered with these arguments *)

(** A computation that emits trace events in order and then returns or
    raises.  The handling wrappers are coroutines; awaiting one runs it to
    its result or failure, cancellation arriving as the failure
    [CancelledError] at the awaited call. *)
Definition Exec (A : Type) : Type := list TraceEvent * Outcome A.

Definition emitted {A} (m : Exec A) : list TraceEvent := fst m.
Definition outcome {A} (m : Exec A) : Outcome A := snd m.

#[global] Instance exec_ret : MRet Exec := λ A a, ([], Return a).

#[global] Instance exec_bind : MBind Exec := λ A B f m,
  match m with
  | (evs, Return a) => let '(evs', o) := f a in (evs ++ evs', o)
  | (evs, Raise e) => (evs, Raise e)
  end.

Definition raise {A} (e : Exn) : Exec A := ([], Raise e).

Record Tracer : Type := { instrumenting_module_name : string }.

Definition __name__ : string := "opentelemetry.instrumentation.fastapi_events".

Definition get_tracer (name : string) : Tracer :=
  {| instrumenting_module_name := name |}.

(** Status the span is closed with, which is the tracing backend's
    business: its context manager marks the span as failed for an
    [Exception]; a [BaseException] such as cancellation only ends it. *)
Definition status_on_exit {A} (o : Outcome A) : StatusCode :=
  match o with
  | Return _ => UNSET
  | Raise CancelledError => UNSET
  | Raise _ => ERROR
  end.

(** [with tracer.start_as_current_span(name, kind=kind) as span: body]:
    the span is started, the body runs, and the span is ended on the way
    out whatever the body did; the body's result or failure is passed on. *)
Definition start_as_current_span {A} (tracer : Tracer) (name : string)
    (kind : SpanKind) (body : Exec A) : Exec A :=
  let '(evs, o) := body in
  ([SpanStart name kind] ++ evs ++ [SpanEnd name (status_on_exit o)], o).

(** ** Python operations used by the wrappers *)

(** [kwargs.get(key)] *)
Definition dict_get (kwargs : gmap string Value) (key : string) : Value :=
  default VNone (kwargs !! key).

(** A byte that continues a UTF-8 character: [0x80] to [0xBF]. *)
Definition is_continuation (c : Ascii.ascii) : bool :=
  Nat.leb 128 (Ascii.nat_of_ascii c) && Nat.ltb (Ascii.nat_of_ascii c) 192.

(** The continuation bytes a string starts with. *)
Fixpoint continuation (s : string) : string :=
  match s with
  | String c s' =>
      if is_continuation c then String c (continuation s') else EmptyString
  | EmptyString => EmptyString
  end.

(** [x[0]]; the first character of a str is its leading byte with the
    continuation bytes that follow it. *)
Definition getitem0 (x : Value) : Exec Value :=
  match x with
  | VNone => raise TypeError
  | VStr EmptyString => raise IndexError
  | VStr (String c s) => mret (VStr (String c (continuation s)))
  | VSeq [] _ => raise IndexError
  | VSeq (v :: _) _ => mret v
  | VObj _ => raise TypeError
  end.

(** What a replacement field [{x}] of an f-string puts into the text. *)
Definition format (x : Value) : string :=
  match x with
  | VNone => "None"
  | VStr s => s
  | VSeq _ t => t
  | VObj t => t
  end.

(** A callable as a wrapper receives it: positional arguments, keyword
    arguments, and what the call does. *)
Definition Callee : Type := list Value → gmap string Value → Exec Value.

(** ** The wrappers *)

Definition _handle_wrapper (wrapped : Callee) (instance : Value)
    (args : list Value) (kwargs : gmap string Value) : Exec Value :=
  let tracer := get_tracer __name__ in
  let event := match args with a :: _ => a | [] => dict_get kwargs "event" end in
  name ← getitem0 event;
  start_as_current_span tracer ("handling event " +:+ format name) CONSUMER
    (wrapped [event] ∅).

Definition _handle_many_wrapper (wrapped : Callee) (instance : Value)
    (args : list Value) (kwargs : gmap string Value) : Exec Value :=
  let tracer := get_tracer __name__ in
  let events := match args with a :: _ => a | [] => dict_get kwargs "events" end in
  start_as_current_span tracer "handling multiple events" CONSUMER
    (wrapped [events] ∅).

Definition _dispatch_wrapper (wrapped : Callee) (instance : Value)
    (args : list Value) (kwargs : gmap string Value) : Exec Value :=
  let event_name := dict_get kwargs "event_name" in
  let tracer := get_tracer __name__ in
  start_as_current_span tracer ("Event " +:+ format event_name +:+ " dispatched")
    PRODUCER (wrapped args kwargs).

(** ** The patched tables *)

(** The three wrapper functions, as the objects a [FunctionWrapper]
    refers to. *)
Inductive WrapperFn : Type :=
| handle_wrapper_fn
| handle_many_wrapper_fn
| dispatch_wrapper_fn.

(** What a method or function slot holds: a plain function, identified by
    its qualified name, or wrapt's [FunctionWrapper] proxy around what the
    slot held before ([__wrapped__]) and the wrapper function to run. *)
Inductive Callable : Type :=
| Function (qualname : string)
| FunctionWrapper (wrapped : Callable) (wrapper : WrapperFn).

(** Number of [FunctionWrapper] proxies around the plain function. *)
Fixpoint layers (f : Callable) : nat :=
  match f with
  | Function _ => 0
  | FunctionWrapper g _ => S (layers g)
  end.

(** The function a [FunctionWrapper] runs. *)
Definition wrapper_function (w : WrapperFn) :
    Callee → Value → list Value → gmap string Value → Exec Value :=
  match w with
  | handle_wrapper_fn => _handle_wrapper
  | handle_many_wrapper_fn => _handle_many_wrapper
  | dispatch_wrapper_fn => _dispatch_wrapper
  end.

(** Calling what a slot holds: a plain function does what [functions]
    says for its name; a [FunctionWrapper] hands what it wraps, the
    instance and the arguments to its wrapper function. *)
Fixpoint call (functions : string → Callee) (instance : Value) (f : Callable) :
    Callee :=
  match f with
  | Function qualname => functions qualname
  | FunctionWrapper g w => wrapper_function w (call functions instance g) instance
  end.

(** A member of a namespace, as [inspect.getmembers] classifies it.
    Classes are identified by their qualified name. *)
Inductive Member : Type :=
| MModule (members : list (string * Member))
| MClass (class_ : string)
| MOther.

Definition ismodule (m : Member) : bool :=
  match m with MModule _ => true | _ => false end.

Definition isclass (m : Member) : bool :=
  match m with MClass _ => true | _ => false end.

(** [inspect.getmembers(object, predicate)]: the (name, value) pairs of the
    object's namespace that satisfy the predicate.  The namespace is given
    as the listing [dir()] produces, which is already ordered by name. *)
Definition getmembers (object : list (string * Member))
    (predicate : Member → bool) : list (string * Member) :=
  List.filter (λ p, predicate p.2) object.

(** Namespace of a module member; the instrumentor only asks for it on
    members that passed [ismodule]. *)
Definition namespace (m : Member) : list (string * Member) :=
  match m with MModule ms => ms | _ => [] end.

(** What the instrumentor patches: a class, or the module
    [fastapi_events.dispatcher]. *)
Inductive Target : Type :=
| Class (class_ : string)
| DispatcherModule.

(** The mutable state: the method tables of the classes ([vars(class_)],
    keyed by class and attribute name), the namespace of
    [fastapi_events.dispatcher], and the instrumentor's own list. *)
Record State : Type := {
  class_dict : gmap (string * string) Callable;
  dispatcher : gmap string Callable;
  _instrumented_classes : list string;
}.

(** Code that mutates the state and may raise; what it changed before
    raising stays changed. *)
Definition Patch (A : Type) : Type := State → Outcome A * State.

#[global] Instance patch_ret : MRet Patch := λ A a s, (Return a, s).

#[global] Instance patch_bind : MBind Patch := λ A B f m s,
  match m s with
  | (Return a, s') => f a s'
  | (Raise e, s') => (Raise e, s')
  end.

Definition throw {A} (e : Exn) : Patch A := λ s, (Raise e, s).

(** [for x in l: body(x)] *)
Fixpoint for_each {A} (l : list A) (body : A → Patch unit) : Patch unit :=
  match l with
  | [] => mret tt
  | x :: l' => body x ;; for_each l' body
  end.

(** First entry for [attr] along a method resolution order. *)
Fixpoint find_in_mro (d : gmap (string * string) Callable) (mro : list string)
    (attr : string) : option Callable :=
  match mro with
  | [] => None
  | c :: rest =>
      match d !! (c, attr) with
      | Some f => Some f
      | None => find_in_mro d rest attr
      end
  end.

Definition setattr (t : Target) (attr : string) (v : Callable) : Patch unit :=
  λ s,
  (Return tt,
   match t with
   | Class c =>
       {| class_dict := <[(c, attr) := v]> (class_dict s);
          dispatcher := dispatcher s;
          _instrumented_classes := _instrumented_classes s |}
   | DispatcherModule =>
       {| class_dict := class_dict s;
          dispatcher := <[attr := v]> (dispatcher s);
          _instrumented_classes := _instrumented_classes s |}
   end).

(** [self._instrumented_classes.append(class_)] *)
Definition append_instrumented (class_ : string) : Patch unit :=
  λ s,
  (Return tt,
   {| class_dict := class_dict s;
      dispatcher := dispatcher s;
      _instrumented_classes := _instrumented_classes s ++ [class_] |}).

Section Instrumentor.

(** The process the instrumentor runs in: the listing of the package
    [fastapi_events.handlers], the ancestors of each class in method
    resolution order (the class itself comes first and is left out), and
    the class [BaseEventHandler]. *)
Variable handlers : list (string * Member).
Variable bases : string → list string.
Variable BaseEventHandler : string.

Definition getmro (class_ : string) : list string := class_ :: bases class_.

Definition issubclass (class_ base : string) : bool :=
  bool_decide (base ∈ getmro class_).

(** Attribute lookup on a patch target: along the MRO for a class, in
    the module namespace for the dispatcher module. *)
Definition getattr (s : State) (t : Target) (attr : string) : option Callable :=
  match t with
  | Class c => find_in_mro (class_dict s) (getmro c) attr
  | DispatcherModule => dispatcher s !! attr
  end.

(** [wrapt.wrap_function_wrapper(target, name, wrapper)]: resolves the
    attribute (for a class, in the [__dict__] of the first class of the
    MRO that has it), and stores on the target itself a
    [FunctionWrapper] around what it found. *)
Definition wrap_function_wrapper (t : Target) (name : string)
    (wrapper : WrapperFn) : Patch unit :=
  λ s,
  match getattr s t name with
  | None => (Raise AttributeError, s)
  | Some original => setattr t name (FunctionWrapper original wrapper) s
  end.

(** [opentelemetry.instrumentation.utils.unwrap], which the module
    imports: the instrumentor is written against whatever it does. *)
Variable unwrap : Target → string → Patch unit.

(** ** The instrumentor *)

(** [FastAPIEventsInstrumentor.__init__] *)
Definition __init__ (s : State) : State :=
  {| class_dict := class_dict s;
     dispatcher := dispatcher s;
     _instrumented_classes := [] |}.

(** Body of the inner loop of [_instrument] for one member that passed
    [isclass]; [issubclass] rejects anything that is not a class. *)
Definition instrument_member (member : string * Member) : Patch unit :=
  match member.2 with
  | MClass class_ =>
      if issubclass class_ BaseEventHandler
         && negb (bool_decide (class_ = BaseEventHandler))
      then
        append_instrumented class_ ;;
        wrap_function_wrapper (Class class_) "handle" handle_wrapper_fn ;;
        wrap_function_wrapper (Class class_) "handle_many" handle_many_wrapper_fn
      else mret tt
  | _ => throw TypeError
  end.

Definition _instrument : Patch unit :=
  for_each (getmembers handlers ismodule) (λ module,
    for_each (getmembers (namespace module.2) isclass) instrument_member) ;;
  wrap_function_wrapper DispatcherModule "_dispatch" dispatch_wrapper_fn.

Definition _uninstrument : Patch unit :=
  λ s,
  (for_each (_instrumented_classes s) (λ class_,
     unwrap (Class class_) "handle" ;;
     unwrap (Class class_) "handle_many") ;;
   unwrap DispatcherModule "dispatch") s.

End Instrumentor.

(** Modelled from the spec: [opentelemetry.instrumentation.utils.unwrap],
    which the module imports and whose source is not part of the files
    at hand.  The specification has it restore the original (pre-wrap)
    callable, and has unwrapping a function that was never wrapped be a
    no-op rather than an error.  So: the attribute is looked up on the
    target; a [FunctionWrapper] is replaced, on the target itself, by
    what it wraps; anything else, a missing attribute included, is left
    as it is. *)
Definition unwrap (bases : string → list string) (t : Target) (attr : string) :
    Patch unit :=
  λ s,
  match getattr bases s t attr with
  | Some (FunctionWrapper original _) => setattr t attr original s
  | _ => (Return tt, s)
  end.

(** ** The copy under [opentelemetry-instrumentation-fastapi-events] *)

Module Legacy.
Section Instrumentor.

Variable handlers : list (string * Member).
Variable bases : string → list string.
Variable BaseEventHandler : string.
Variable unwrap : Target → string → Patch unit.

Definition instrument_member (member : string * Member) : Patch unit :=
  match member.2 with
  | MClass class_ =>
      if issubclass bases class_ BaseEventHandler
      then
        append_instrumented class_ ;;
        wrap_function_wrapper bases (Class class_) "handle" handle_wrapper_fn ;;
        wrap_function_wrapper bases (Class class_) "handle_many"
          handle_many_wrapper_fn
      else mret tt
  | _ => throw TypeError
  end.

Definition _instrument : Patch unit :=
  for_each (getmembers handlers ismodule) (λ module,
    for_each (getmembers (namespace module.2) isclass) instrument_member).

Definition _uninstrument : Patch unit :=
  λ s,
  for_each (_instrumented_classes s) (λ class_,
    unwrap (Class class_) "handle" ;;
    unwrap (Class class_) "handle_many") s.

End Instrumentor.
End Legacy.

(** ** A small process to run the code on *)

Module Demo.

Definition Base : string := "fastapi_events.handlers.base.BaseEventHandler".
Definition Local : string := "fastapi_events.handlers.local.LocalHandler".
Definition Echo : string := "fastapi_events.handlers.echo.EchoHandler".

Definition bases (class_ : string) : list string :=
  if bool_decide (class_ = Local) then [Base; "abc.ABC"; "object"]
  else if bool_decide (class_ = Echo) then [Base; "abc.ABC"; "object"]
  else if bool_decide (class_ = Base) then ["abc.ABC"; "object"]
  else ["object"].

Definition handlers : list (string * Member) :=
  [ ("__name__", MOther);
    ("base", MModule [ ("ABC", MClass "abc.ABC");
                       ("BaseEventHandler", MClass Base);
                       ("asyncio", MModule []) ]);
    ("echo", MModule [ ("BaseEventHandler", MClass Base);
                       ("EchoHandler", MClass Echo);
                       ("Event", MOther) ]);
    ("local", MModule [ ("BaseEventHandler", MClass Base);
                        ("LocalHandler", MClass Local);
                        ("local_handler", MOther) ]) ].

Definition process : State :=
  {| class_dict :=
       <[(Base, "handle") := Function "BaseEventHandler.handle"]>
       (<[(Base, "handle_many") := Function "BaseEventHandler.handle_many"]>
       (<[(Echo, "handle") := Function "EchoHandler.handle"]>
       (<[(Local, "handle") := Function "LocalHandler.handle"]> ∅)));
     dispatcher :=
       <["_dispatch" := Function "_dispatch"]>
       (<["dispatch" := Function "dispatch"]> ∅);
     _instrumented_classes := [] |}.

(** A namespace in which one module imports the handler class of
    another, so that the class is a member of both. *)
Definition handlers_shared : list (string * Member) :=
  [ ("echo", MModule [ ("BaseEventHandler", MClass Base);
                       ("EchoHandler", MClass Echo);
                       ("LocalHandler", MClass Local) ]);
    ("local", MModule [ ("BaseEventHandler", MClass Base);
                        ("LocalHandler", MClass Local) ]) ].

End Demo.

(** ** Observing a wrapper *)

(** An original callable that leaves a record of the arguments it was
    entered with and then returns or raises as told. *)
Definition original (target : string) (result : Outcome Value) : Callee :=
  λ args kwargs, ([Invoked target args kwargs], result).

Definition is_span_start (ev : TraceEvent) : bool :=
  match ev with SpanStart _ _ => true | _ => false end.

Definition is_span_end (ev : TraceEvent) : bool :=
  match ev with SpanEnd _ _ => true | _ => false end.

(** Number of spans started, and ended, in a run. *)
Definition spans_started (evs : list TraceEvent) : nat :=
  length (List.filter is_span_start evs).

Definition spans_ended (evs : list TraceEvent) : nat :=
  length (List.filter is_span_end evs).

(** The event the test suite dispatches, as the handlers receive it. *)
Definition visitor_spotted : Value :=
  VSeq [VStr "VISITOR_SPOTTED"; VNone] "('VISITOR_SPOTTED', None)".

(** The argument a handling wrapper picks: [args[0] if args else
    kwargs.get(key)]. *)
Definition picked (args : list Value) (kwargs : gmap string Value)
    (key : string) : Value :=
  match args with a :: _ => a | [] => dict_get kwargs key end.

(** A run that is one span around the events [evs] and outcome [o] of a
    delegated call: the span starts before the first of them, ends after
    the last, and the outcome is passed on. *)
Definition scoped_run (span : string) (kind : SpanKind)
    (evs : list TraceEvent) (o : Outcome Value) (run : Exec Value) : Prop :=
  run = (SpanStart span kind :: evs ++ [SpanEnd span (status_on_exit o)], o)
  ∧ spans_started (emitted run) = S (spans_started evs)
  ∧ spans_ended (emitted run) = S (spans_ended evs).

(** ** Describing what the instrumentor finds *)

(** The class members of the module members of the handlers package, in
    the order the two loops of [_instrument] meet them. *)
Definition candidates (handlers : list (string * Member)) : list (string * Member) :=
  flat_map (λ module, getmembers (namespace module.2) isclass)
    (getmembers handlers ismodule).

(** The classes among them that subclass [BaseEventHandler] and are not
    [BaseEventHandler] itself. *)
Definition discovered (handlers : list (string * Member))
    (bases : string → list string) (BaseEventHandler : string) : list string :=
  omap (λ member : string * Member,
          match member.2 with
          | MClass class_ =>
              if issubclass bases class_ BaseEventHandler
                 && negb (bool_decide (class_ = BaseEventHandler))
              then Some class_ else None
          | _ => None
          end)
       (candidates handlers).

(** A class is reachable from the handlers namespace: it is a member of a
    module that is a member of the package. *)
Definition reachable (handlers : list (string * Member)) (class_ : string) : Prop :=
  ∃ mname members cname,
    (mname, MModule members) ∈ handlers ∧ (cname, MClass class_) ∈ members.

(** No slot holds a wrapper and the instrumentor has recorded nothing. *)
Definition uninstrumented (s : State) : Prop :=
  _instrumented_classes s = []
  ∧ map_Forall (λ _ f, layers f = 0) (class_dict s)
  ∧ map_Forall (λ _ f, layers f = 0) (dispatcher s).

(** No class of the list inherits from another class of the list. *)
Definition unrelated (bases : string → list string) (classes : list string) : Prop :=
  ∀ c d, c ∈ classes → d ∈ classes → c ≠ d → d ∉ bases c.

(** The wrapper function [_instrument] puts on a handler method. *)
Definition wrapper_for (attr : string) : WrapperFn :=
  if bool_decide (attr = "handle") then handle_wrapper_fn else handle_many_wrapper_fn.

(** What [_instrument] does for one class it accepts. *)
Definition wrap_class (bases : string → list string) (class_ : string) : Patch unit :=
  append_instrumented class_ ;;
  wrap_function_wrapper bases (Class class_) "handle" handle_wrapper_fn ;;
  wrap_function_wrapper bases (Class class_) "handle_many" handle_many_wrapper_fn.

(** What [_uninstrument] does for one class of its list. *)
Definition unwrap_class (unwrap : Target → string → Patch unit)
    (class_ : string) : Patch unit :=
  unwrap (Class class_) "handle" ;;
  unwrap (Class class_) "handle_many".

(** The statement that one [_instrument] on an uninstrumented process
    records every class once and leaves one wrapper on each of its two
    methods. *)
Definition wraps_once (handlers : list (string * Member))
    (bases : string → list string) (BaseEventHandler : string) (s : State) : Prop :=
  uninstrumented s →
  ∀ s', _instrument handlers bases BaseEventHandler s = (Return tt, s') →
  ∀ c, c ∈ _instrumented_classes s' →
    length (List.filter (λ d, bool_decide (d = c)) (_instrumented_classes s')) = 1
    ∧ (layers <$> getattr bases s' (Class c) "handle") = Some 1
    ∧ (layers <$> getattr bases s' (Class c) "handle_many") = Some 1.

(** The statement that [_uninstrument], on a process where nothing has
    been instrumented, signals an error. *)
Definition fails_loudly (unwrap : Target → string → Patch unit) (s : State) : Prop :=
  uninstrumented s → ∃ e, fst (_uninstrument unwrap s) = Raise e.

(** A relation between the state before and after that a piece of code
    maintains whether it returns or raises. *)
Definition maintains {A} (R : relation State) (m : Patch A) : Prop :=
  ∀ s, R s (m s).2.

(** The namespace of the dispatcher module is left as it was. *)
Definition keeps_dispatcher : relation State :=
  λ s s', dispatcher s' = dispatcher s.

(** One slot of the dispatcher module is left as it was. *)
Definition keeps_slot (attr : string) : relation State :=
  λ s s', dispatcher s' !! attr = dispatcher s !! attr.

(** A class is neither added to the instrumentor's list nor given a new
    entry in its method table. *)
Definition keeps_class (class_ : string) : relation State :=
  λ s s',
    (class_ ∉ _instrumented_classes s → class_ ∉ _instrumented_classes s')
    ∧ ∀ attr, class_dict s' !! (class_, attr) = class_dict s !! (class_, attr).

(** An [unwrap] that, whatever else it does, touches nothing but the
    attribute it is given: on a class it leaves the dispatcher module
    alone, and on the dispatcher module it leaves the other attributes
    alone. *)
Definition slot_local (unwrap : Target → string → Patch unit) : Prop :=
  (∀ c attr, maintains keeps_dispatcher (unwrap (Class c) attr))
  ∧ (∀ attr other, attr ≠ other →
       maintains (keeps_slot other) (unwrap DispatcherModule attr)).

(** ** Describing layers of wrappers *)

(** The plain function at the bottom of a slot. *)
Fixpoint root (f : Callable) : string :=
  match f with
  | Function qualname => qualname
  | FunctionWrapper g _ => root g
  end.

(** Every proxy of the slot runs the wrapper function [w]. *)
Fixpoint wrapped_only_by (w : WrapperFn) (f : Callable) : bool :=
  match f with
  | Function _ => true
  | FunctionWrapper g w' =>
      match w, w' with
      | handle_wrapper_fn, handle_wrapper_fn
      | handle_many_wrapper_fn, handle_many_wrapper_fn
      | dispatch_wrapper_fn, dispatch_wrapper_fn => wrapped_only_by w g
      | _, _ => false
      end
  end.

(** [n] proxies running [w] around [f]. *)
Fixpoint wrapn (n : nat) (w : WrapperFn) (f : Callable) : Callable :=
  match n with
  | 0 => f
  | S n' => FunctionWrapper (wrapn n' w f) w
  end.

(** The events of a run that are not span events. *)
Definition own_events (evs : list TraceEvent) : list TraceEvent :=
  List.filter (λ ev, negb (is_span_start ev || is_span_end ev)) evs.

(** How many times a class occurs in a list of classes. *)
Definition listings (class_ : string) (classes : list string) : nat :=
  length (List.filter (λ d, bool_decide (d = class_)) classes).

(** Number of proxies in the entry a class has of its own for an
    attribute; none when it has no entry of its own. *)
Definition own_layers (s : State) (class_ attr : string) : nat :=
  from_option layers 0 (class_dict s !! (class_, attr)).

(** The instrumentor's list is left as it was. *)
Definition keeps_recorded : relation State :=
  λ s s', _instrumented_classes s' = _instrumented_classes s.

(** The entry of one class for one attribute is left as it was. *)
Definition keeps_entry (class_ attr : string) : relation State :=
  λ s s', class_dict s' !! (class_, attr) = class_dict s !! (class_, attr).

(** The classes the older copy of [_instrument] accepts: the candidates
    that subclass [BaseEventHandler], the base class included. *)
Definition legacy_discovered (handlers : list (string * Member))
    (bases : string → list string) (BaseEventHandler : string) : list string :=
  omap (λ member : string * Member,
          match member.2 with
          | MClass class_ =>
              if issubclass bases class_ BaseEventHandler
              then Some class_ else None
          | _ => None
          end)
       (candidates handlers).

(** * Properties of the wrappers *)

Section Wrappers.

Variable wrapped : Callee.
Variable instance : Value.

Lemma start_as_current_span_run {A} tracer name kind (body : Exec A) :
  start_as_current_span tracer name kind body =
    (SpanStart name kind :: emitted body
       ++ [SpanEnd name (status_on_exit (outcome body))],
     outcome body).
Proof. by destruct body. Qed.

Lemma spans_started_scope name kind evs status :
  spans_started (SpanStart name kind :: evs ++ [SpanEnd name status]) =
    S (spans_started evs).
Proof.
  unfold spans_started; simpl. f_equal.
  rewrite List.filter_app, length_app; simpl. lia.
Qed.

Lemma spans_ended_scope name kind evs status :
  spans_ended (SpanStart name kind :: evs ++ [SpanEnd name status]) =
    S (spans_ended evs).
Proof.
  unfold spans_ended; simpl.
  rewrite List.filter_app, length_app; simpl. lia.
Qed.

Lemma handle_wrapper_run args kwargs name :
  getitem0 (picked args kwargs "event") = ([], Return name) →
  _handle_wrapper wrapped instance args kwargs =
    start_as_current_span (get_tracer __name__)
      ("handling event " +:+ format name) CONSUMER
      (wrapped [picked args kwargs "event"] ∅).
Proof.
  intros Hname. unfold _handle_wrapper. fold (picked args kwargs "event").
  rewrite Hname. unfold mbind, exec_bind.
  by destruct (start_as_current_span _ _ _ _).
Qed.

(** C2: called with keyword argument [event_name], the dispatch wrapper
    runs the original dispatch function once, with the positional and
    keyword arguments it received itself, inside one span named
    ["Event " + event_name + " dispatched"] of kind producer, and hands
    back the original's result or failure. *)
Theorem dispatch_wrapper_span args kwargs (event_name : string) :
  kwargs !! "event_name" = Some (VStr event_name) →
  let name := "Event " +:+ event_name +:+ " dispatched" in
  let call := wrapped args kwargs in
  _dispatch_wrapper wrapped instance args kwargs =
    (SpanStart name PRODUCER :: emitted call
       ++ [SpanEnd name (status_on_exit (outcome call))],
     outcome call)
  ∧ spans_started (emitted (_dispatch_wrapper wrapped instance args kwargs)) =
      S (spans_started (emitted call)).
Proof.
  intros Hkw name call.
  assert (Hrun : _dispatch_wrapper wrapped instance args kwargs =
    (SpanStart name PRODUCER :: emitted call
       ++ [SpanEnd name (status_on_exit (outcome call))], outcome call)).
  { unfold _dispatch_wrapper, dict_get. rewrite Hkw; simpl.
    apply start_as_current_span_run. }
  split; [exact Hrun |].
  rewrite Hrun. apply spans_started_scope.
Qed.

(** C3: called with one event, positionally or as keyword [event], the
    event being a sequence that starts with the event name, the
    single-event wrapper runs the original handler once with that event
    as its only, positional, argument, inside one span named
    ["handling event " + event[0]] of kind consumer, and hands back the
    original's result or failure. *)
Theorem handle_wrapper_span args kwargs event (name : string) rest text :
  (args = [event] ∧ kwargs = ∅) ∨ (args = [] ∧ kwargs = {["event" := event]}) →
  event = VSeq (VStr name :: rest) text →
  let span := "handling event " +:+ name in
  let call := wrapped [event] ∅ in
  _handle_wrapper wrapped instance args kwargs =
    (SpanStart span CONSUMER :: emitted call
       ++ [SpanEnd span (status_on_exit (outcome call))],
     outcome call)
  ∧ spans_started (emitted (_handle_wrapper wrapped instance args kwargs)) =
      S (spans_started (emitted call)).
Proof.
  intros Hcall Hev span call.
  assert (Hpick : picked args kwargs "event" = event).
  { destruct Hcall as [[-> ->] | [-> ->]]; [done |].
    unfold picked, dict_get. by rewrite lookup_singleton_eq. }
  assert (Hrun : _handle_wrapper wrapped instance args kwargs =
    (SpanStart span CONSUMER :: emitted call
       ++ [SpanEnd span (status_on_exit (outcome call))], outcome call)).
  { rewrite (handle_wrapper_run args kwargs (VStr name)).
    - rewrite Hpick. apply start_as_current_span_run.
    - rewrite Hpick, Hev. reflexivity. }
  split; [exact Hrun |].
  rewrite Hrun. apply spans_started_scope.
Qed.

(** C4: called with one argument, positionally or as keyword [events],
    the multi-event wrapper runs the original handler once with that
    argument as its only, positional, argument, inside one span named
    ["handling multiple events"] of kind consumer, whatever the batch
    holds. *)
Theorem handle_many_wrapper_span args kwargs batch :
  (args = [batch] ∧ kwargs = ∅) ∨ (args = [] ∧ kwargs = {["events" := batch]}) →
  let call := wrapped [batch] ∅ in
  _handle_many_wrapper wrapped instance args kwargs =
    (SpanStart "handling multiple events" CONSUMER :: emitted call
       ++ [SpanEnd "handling multiple events" (status_on_exit (outcome call))],
     outcome call)
  ∧ spans_started (emitted (_handle_many_wrapper wrapped instance args kwargs)) =
      S (spans_started (emitted call)).
Proof.
  intros Hcall call.
  assert (Hpick : picked args kwargs "events" = batch).
  { destruct Hcall as [[-> ->] | [-> ->]]; [done |].
    unfold picked, dict_get. by rewrite lookup_singleton_eq. }
  assert (Hrun : _handle_many_wrapper wrapped instance args kwargs =
    (SpanStart "handling multiple events" CONSUMER :: emitted call
       ++ [SpanEnd "handling multiple events" (status_on_exit (outcome call))],
     outcome call)).
  { unfold _handle_many_wrapper. fold (picked args kwargs "events").
    rewrite Hpick. apply start_as_current_span_run. }
  split; [exact Hrun |].
  rewrite Hrun. apply spans_started_scope.
Qed.

(** C9: called with no positional argument and no keyword [event], the
    single-event wrapper raises while computing the span name: nothing
    is emitted, so no span was opened and the original handler was not
    entered. *)
Theorem handle_wrapper_missing_event kwargs :
  kwargs !! "event" = None →
  _handle_wrapper wrapped instance [] kwargs = ([], Raise TypeError).
Proof.
  intros Hkw. unfold _handle_wrapper, dict_get. by rewrite Hkw.
Qed.

(** C10: when the keyword arguments hold no [event_name] (it was passed
    positionally), the dispatch wrapper names its span
    ["Event None dispatched"] and still runs the original dispatch
    function with the arguments it received itself. *)
Theorem dispatch_wrapper_positional_name args kwargs :
  kwargs !! "event_name" = None →
  let call := wrapped args kwargs in
  _dispatch_wrapper wrapped instance args kwargs =
    (SpanStart "Event None dispatched" PRODUCER :: emitted call
       ++ [SpanEnd "Event None dispatched" (status_on_exit (outcome call))],
     outcome call).
Proof.
  intros Hkw call. unfold _dispatch_wrapper, dict_get. rewrite Hkw; simpl.
  apply start_as_current_span_run.
Qed.

End Wrappers.

Section SpanScope.

Variable wrapped : Callee.
Variable instance : Value.

Lemma scoped_run_intro span kind (body : Exec Value) :
  scoped_run span kind (emitted body) (outcome body)
    (start_as_current_span (get_tracer __name__) span kind body).
Proof.
  unfold scoped_run. rewrite start_as_current_span_run.
  split; [reflexivity |]. unfold emitted at 1 3; simpl.
  split; [apply spans_started_scope | apply (spans_ended_scope span kind)].
Qed.

(** C6: whatever the original call does once it has been entered
    (return, raise, or be cancelled), each of the three wrappers emits
    exactly one span for the call, started before the original's first
    event and ended after its last, and hands the original's outcome,
    in particular its failure, to its own caller unchanged. *)
Theorem wrappers_scope_the_call args kwargs evs (o : Outcome Value) :
  (∀ name,
     getitem0 (picked args kwargs "event") = ([], Return name) →
     wrapped [picked args kwargs "event"] ∅ = (evs, o) →
     scoped_run ("handling event " +:+ format name) CONSUMER evs o
       (_handle_wrapper wrapped instance args kwargs))
  ∧ (wrapped [picked args kwargs "events"] ∅ = (evs, o) →
     scoped_run "handling multiple events" CONSUMER evs o
       (_handle_many_wrapper wrapped instance args kwargs))
  ∧ (wrapped args kwargs = (evs, o) →
     scoped_run
       ("Event " +:+ format (dict_get kwargs "event_name") +:+ " dispatched")
       PRODUCER evs o
       (_dispatch_wrapper wrapped instance args kwargs)).
Proof.
  split; [| split].
  - intros name Hname Hcall.
    rewrite (handle_wrapper_run wrapped instance args kwargs name Hname).
    pose proof (scoped_run_intro ("handling event " +:+ format name) CONSUMER
                  (wrapped [picked args kwargs "event"] ∅)) as H.
    rewrite Hcall in H |- *. exact H.
  - intros Hcall.
    pose proof (scoped_run_intro "handling multiple events" CONSUMER
                  (wrapped [picked args kwargs "events"] ∅)) as H.
    unfold _handle_many_wrapper. fold (picked args kwargs "events").
    rewrite Hcall in H |- *. exact H.
  - intros Hcall.
    pose proof (scoped_run_intro
                  ("Event " +:+ format (dict_get kwargs "event_name")
                     +:+ " dispatched") PRODUCER (wrapped args kwargs)) as H.
    unfold _dispatch_wrapper. rewrite Hcall in H |- *. exact H.
Qed.

End SpanScope.

(** ** The wrappers on the events of the test suite *)

Lemma dispatch_wrapper_span_witness :
  _dispatch_wrapper (original "_dispatch" (Return VNone)) VNone []
    (<["event_name" := VStr "VISITOR_SPOTTED"]> {["payload" := VNone]}) =
  ([SpanStart "Event VISITOR_SPOTTED dispatched" PRODUCER;
    Invoked "_dispatch" []
      (<["event_name" := VStr "VISITOR_SPOTTED"]> {["payload" := VNone]});
    SpanEnd "Event VISITOR_SPOTTED dispatched" UNSET],
   Return VNone).
Proof.
  apply (dispatch_wrapper_span (original "_dispatch" (Return VNone)) VNone []
           (<["event_name" := VStr "VISITOR_SPOTTED"]> {["payload" := VNone]})
           "VISITOR_SPOTTED").
  reflexivity.
Defined.

Lemma handle_wrapper_span_witness :
  _handle_wrapper (original "handle" (Return VNone)) VNone []
    {["event" := visitor_spotted]} =
  ([SpanStart "handling event VISITOR_SPOTTED" CONSUMER;
    Invoked "handle" [visitor_spotted] ∅;
    SpanEnd "handling event VISITOR_SPOTTED" UNSET],
   Return VNone).
Proof.
  apply (handle_wrapper_span (original "handle" (Return VNone)) VNone []
           {["event" := visitor_spotted]} visitor_spotted
           "VISITOR_SPOTTED" [VNone] "('VISITOR_SPOTTED', None)").
  - right. split; reflexivity.
  - reflexivity.
Defined.

Lemma handle_many_wrapper_span_witness :
  _handle_many_wrapper (original "handle_many" (Return VNone)) VNone
    [VSeq [visitor_spotted; visitor_spotted] "[...]"] ∅ =
  ([SpanStart "handling multiple events" CONSUMER;
    Invoked "handle_many" [VSeq [visitor_spotted; visitor_spotted] "[...]"] ∅;
    SpanEnd "handling multiple events" UNSET],
   Return VNone).
Proof.
  apply (handle_many_wrapper_span (original "handle_many" (Return VNone)) VNone
           [VSeq [visitor_spotted; visitor_spotted] "[...]"] ∅
           (VSeq [visitor_spotted; visitor_spotted] "[...]")).
  left. split; reflexivity.
Defined.

Lemma handle_wrapper_missing_event_witness :
  _handle_wrapper (original "handle" (Return VNone)) VNone []
    {["events" := visitor_spotted]} = ([], Raise TypeError).
Proof.
  apply (handle_wrapper_missing_event (original "handle" (Return VNone)) VNone
           {["events" := visitor_spotted]}).
  reflexivity.
Defined.

Lemma dispatch_wrapper_positional_name_witness :
  _dispatch_wrapper (original "_dispatch" (Return VNone)) VNone
    [VStr "VISITOR_SPOTTED"] ∅ =
  ([SpanStart "Event None dispatched" PRODUCER;
    Invoked "_dispatch" [VStr "VISITOR_SPOTTED"] ∅;
    SpanEnd "Event None dispatched" UNSET],
   Return VNone).
Proof.
  apply (dispatch_wrapper_positional_name (original "_dispatch" (Return VNone))
           VNone [VStr "VISITOR_SPOTTED"] ∅).
  reflexivity.
Defined.

Lemma wrappers_scope_the_call_witness :
  scoped_run "handling event VISITOR_SPOTTED" CONSUMER
    [Invoked "handle" [visitor_spotted] ∅] (Raise (Exception "boom"))
    (_handle_wrapper (original "handle" (Raise (Exception "boom"))) VNone
       [visitor_spotted] ∅)
  ∧ scoped_run "handling multiple events" CONSUMER
      [Invoked "handle" [visitor_spotted] ∅] (Raise (Exception "boom"))
      (_handle_many_wrapper (original "handle" (Raise (Exception "boom"))) VNone
         [visitor_spotted] ∅)
  ∧ scoped_run "Event None dispatched" PRODUCER
      [Invoked "handle" [visitor_spotted] ∅] (Raise (Exception "boom"))
      (_dispatch_wrapper (original "handle" (Raise (Exception "boom"))) VNone
         [visitor_spotted] ∅).
Proof.
  destruct (wrappers_scope_the_call
              (original "handle" (Raise (Exception "boom"))) VNone
              [visitor_spotted] ∅
              [Invoked "handle" [visitor_spotted] ∅] (Raise (Exception "boom")))
    as (Hh & Hm & Hd).
  split; [| split].
  - apply (Hh (VStr "VISITOR_SPOTTED")); reflexivity.
  - apply Hm; reflexivity.
  - apply Hd; reflexivity.
Defined.

(** * Properties of the patch lifecycle *)

(** ** Running [Patch] code *)

Lemma maintains_ret (R : relation State) `{!Reflexive R} {A} (a : A) :
  maintains R (mret a : Patch A).
Proof. intros s. simpl. reflexivity. Qed.

Lemma maintains_throw (R : relation State) `{!Reflexive R} {A} e :
  maintains R (throw e : Patch A).
Proof. intros s. simpl. reflexivity. Qed.

Lemma maintains_bind (R : relation State) `{!Transitive R} {A B}
    (m : Patch A) (f : A → Patch B) :
  maintains R m → (∀ a, maintains R (f a)) → maintains R (m ≫= f).
Proof.
  intros Hm Hf s. unfold mbind, patch_bind.
  specialize (Hm s). destruct (m s) as [[a | e] s1]; simpl in *; [| done].
  etrans; [exact Hm | apply Hf].
Qed.

Lemma maintains_for_each (R : relation State) `{!Reflexive R, !Transitive R}
    {A} (l : list A) (body : A → Patch unit) :
  (∀ x, x ∈ l → maintains R (body x)) → maintains R (for_each l body).
Proof.
  induction l as [| x l IH]; intros Hbody; simpl.
  - by apply maintains_ret.
  - apply maintains_bind; [done | |].
    + apply Hbody. by left.
    + intros _. apply IH. intros y Hy. apply Hbody. by right.
Qed.

Lemma patch_bind_ext {A B} (m : Patch A) (f g : A → Patch B) s :
  (∀ a s', f a s' = g a s') → (m ≫= f) s = (m ≫= g) s.
Proof.
  intros H. unfold mbind, patch_bind. destruct (m s) as [[a | e] s1]; [apply H | done].
Qed.

Lemma for_each_app {A} (l1 l2 : list A) (body : A → Patch unit) s :
  for_each (l1 ++ l2) body s = (for_each l1 body ;; for_each l2 body) s.
Proof.
  revert s. induction l1 as [| x l1 IH]; intros s; simpl; [done |].
  unfold mbind, patch_bind in *.
  destruct (body x s) as [[[] | e] s1]; [apply IH | done].
Qed.

Lemma for_each_flat_map {A B} (g : A → list B) (l : list A)
    (body : B → Patch unit) s :
  for_each l (λ x, for_each (g x) body) s = for_each (flat_map g l) body s.
Proof.
  revert s. induction l as [| x l IH]; intros s; simpl; [done |].
  rewrite for_each_app. unfold mbind, patch_bind.
  destruct (for_each (g x) body s) as [[[] | e] s1]; [apply IH | done].
Qed.

(** ** Attribute lookup after a store *)

Lemma find_in_mro_Some d mro attr f :
  find_in_mro d mro attr = Some f → ∃ c, c ∈ mro ∧ d !! (c, attr) = Some f.
Proof.
  induction mro as [| c mro IH]; simpl; [done |].
  destruct (d !! (c, attr)) as [g |] eqn:Hc.
  - intros [= ->]. exists c. split; [by left | done].
  - intros (c' & Hin & Hc')%IH. exists c'. split; [by right | done].
Qed.

Lemma find_in_mro_head d c rest attr f :
  d !! (c, attr) = Some f → find_in_mro d (c :: rest) attr = Some f.
Proof. intros H. simpl. by rewrite H. Qed.

Lemma find_in_mro_frame (d d' : gmap (string * string) Callable) mro attr :
  (∀ c, c ∈ mro → d' !! (c, attr) = d !! (c, attr)) →
  find_in_mro d' mro attr = find_in_mro d mro attr.
Proof.
  induction mro as [| c mro IH]; intros H; simpl; [done |].
  rewrite (H c) by by left.
  destruct (d !! (c, attr)); [done |].
  apply IH. intros c' Hc'. apply H. by right.
Qed.

Section Lifecycle.

Variable handlers : list (string * Member).
Variable bases : string → list string.
Variable BaseEventHandler : string.

(** ** [_instrument] as one loop over the classes it accepts *)

Lemma candidates_isclass member :
  member ∈ candidates handlers → isclass member.2 = true.
Proof.
  unfold candidates, getmembers.
  rewrite list_elem_of_In, in_flat_map.
  intros (module & _ & Hin). by apply filter_In in Hin as [_ ?].
Qed.

Lemma instrument_member_class name class_ :
  instrument_member bases BaseEventHandler (name, MClass class_) =
  if issubclass bases class_ BaseEventHandler
     && negb (bool_decide (class_ = BaseEventHandler))
  then wrap_class bases class_ else mret tt.
Proof. reflexivity. Qed.

Lemma instrument_members_accepted (l : list (string * Member)) s :
  (∀ member, member ∈ l → isclass member.2 = true) →
  for_each l (instrument_member bases BaseEventHandler) s =
  for_each
    (omap (λ member : string * Member,
             match member.2 with
             | MClass class_ =>
                 if issubclass bases class_ BaseEventHandler
                    && negb (bool_decide (class_ = BaseEventHandler))
                 then Some class_ else None
             | _ => None
             end) l)
    (wrap_class bases) s.
Proof.
  revert s. induction l as [| [n m] l IH]; intros s Hcls; [done |].
  assert (Hm : isclass m = true) by (apply (Hcls (n, m)); by left).
  assert (Hl : ∀ member, member ∈ l → isclass member.2 = true)
    by (intros ? ?; apply Hcls; by right).
  destruct m as [| c |]; try discriminate.
  cbn [for_each omap list_omap]. rewrite instrument_member_class. cbn [snd].
  destruct (issubclass bases c BaseEventHandler
            && negb (bool_decide (c = BaseEventHandler))).
  - cbn [for_each]. apply patch_bind_ext. intros [] s1. by apply IH.
  - unfold mbind at 1, patch_bind; simpl. by apply IH.
Qed.

Lemma instrument_as_loop s :
  _instrument handlers bases BaseEventHandler s =
  (for_each (discovered handlers bases BaseEventHandler) (wrap_class bases) ;;
   wrap_function_wrapper bases DispatcherModule "_dispatch" dispatch_wrapper_fn) s.
Proof.
  unfold _instrument.
  pose proof (for_each_flat_map
                (λ module : string * Member, getmembers (namespace module.2) isclass)
                (getmembers handlers ismodule)
                (instrument_member bases BaseEventHandler) s) as Hflat.
  fold (candidates handlers) in Hflat.
  rewrite instrument_members_accepted in Hflat by apply candidates_isclass.
  fold (discovered handlers bases BaseEventHandler) in Hflat.
  unfold mbind, patch_bind. by rewrite Hflat.
Qed.

(** ** One class *)

Lemma wrap_function_wrapper_class_run c attr w s s' :
  wrap_function_wrapper bases (Class c) attr w s = (Return tt, s') →
  ∃ f, getattr bases s (Class c) attr = Some f
       ∧ class_dict s' = <[(c, attr) := FunctionWrapper f w]> (class_dict s)
       ∧ dispatcher s' = dispatcher s
       ∧ _instrumented_classes s' = _instrumented_classes s.
Proof.
  unfold wrap_function_wrapper.
  destruct (getattr bases s (Class c) attr) as [f |]; [| done].
  intros [= <-]. by exists f.
Qed.

Lemma getattr_class_frame s s' c attr :
  (∀ d, d ∈ getmro bases c → class_dict s' !! (d, attr) = class_dict s !! (d, attr)) →
  getattr bases s' (Class c) attr = getattr bases s (Class c) attr.
Proof. intros H. unfold getattr. by apply find_in_mro_frame. Qed.

Lemma getattr_class_own s c attr f :
  class_dict s !! (c, attr) = Some f → getattr bases s (Class c) attr = Some f.
Proof. intros H. unfold getattr, getmro. by apply find_in_mro_head. Qed.

Lemma wrap_class_run c s s' :
  wrap_class bases c s = (Return tt, s') →
  ∃ f g,
    getattr bases s (Class c) "handle" = Some f
    ∧ getattr bases s (Class c) "handle_many" = Some g
    ∧ class_dict s' =
        <[(c, "handle_many") := FunctionWrapper g handle_many_wrapper_fn]>
          (<[(c, "handle") := FunctionWrapper f handle_wrapper_fn]> (class_dict s))
    ∧ dispatcher s' = dispatcher s
    ∧ _instrumented_classes s' = _instrumented_classes s ++ [c].
Proof.
  unfold wrap_class, mbind, patch_bind. cbn [append_instrumented].
  set (s0 := {| class_dict := class_dict s; dispatcher := dispatcher s;
                _instrumented_classes := _instrumented_classes s ++ [c] |}).
  destruct (wrap_function_wrapper bases (Class c) "handle" handle_wrapper_fn s0)
    as [[[] | e] s1] eqn:Hh; [| done].
  intros Hm.
  apply wrap_function_wrapper_class_run in Hh as (f & Hf & Hd1 & Hp1 & Hl1).
  apply wrap_function_wrapper_class_run in Hm as (g & Hg & Hd2 & Hp2 & Hl2).
  exists f, g. split; [exact Hf |]. split.
  - rewrite <- Hg. symmetry. apply getattr_class_frame.
    intros d _. rewrite Hd1. by rewrite lookup_insert_ne.
  - by rewrite Hd2, Hd1, Hp2, Hp1, Hl2, Hl1.
Qed.

(** ** The loop over the accepted classes *)

Lemma wrap_classes_run l s s' :
  for_each l (wrap_class bases) s = (Return tt, s') →
  _instrumented_classes s' = _instrumented_classes s ++ l
  ∧ dispatcher s' = dispatcher s
  ∧ (∀ d a, d ∉ l → class_dict s' !! (d, a) = class_dict s !! (d, a))
  ∧ (NoDup l → unrelated bases l →
     ∀ c a, c ∈ l → a = "handle" ∨ a = "handle_many" →
       ∃ f, getattr bases s (Class c) a = Some f
            ∧ class_dict s' !! (c, a) = Some (FunctionWrapper f (wrapper_for a))).
Proof.
  revert s. induction l as [| c l IH]; intros s.
  - intros [= <-]. rewrite app_nil_r.
    split; [done |]. split; [done |]. split; [done |].
    intros _ _ c a Hc. by apply elem_of_nil in Hc.
  - cbn [for_each]. unfold mbind, patch_bind.
    destruct (wrap_class bases c s) as [[[] | e] s1] eqn:Hc; [| done].
    intros Hrest.
    apply wrap_class_run in Hc as (f & g & Hf & Hg & Hd1 & Hp1 & Hl1).
    destruct (IH s1 Hrest) as (Hl & Hp & Hframe & Hwrapped).
    split; [by rewrite Hl, Hl1, <- app_assoc |].
    split; [by rewrite Hp |].
    split.
    + intros d a [Hdc Hdl]%not_elem_of_cons.
      rewrite Hframe by done. rewrite Hd1.
      rewrite !lookup_insert_ne by congruence. done.
    + intros [Hcl Hnd]%NoDup_cons Hun c0 a Hc0 Ha.
      assert (Hun' : unrelated bases l).
      { intros x y Hx Hy. apply Hun; by right. }
      apply elem_of_cons in Hc0 as [-> | Hc0].
      * rewrite Hframe by done. rewrite Hd1.
        destruct Ha as [-> | ->].
        -- exists f. split; [done |].
           rewrite lookup_insert_ne by congruence. by rewrite lookup_insert_eq.
        -- exists g. split; [done |]. by rewrite lookup_insert_eq.
      * assert (Hne : c0 ≠ c) by (intros ->; done).
        destruct (Hwrapped Hnd Hun' c0 a Hc0 Ha) as (h & Hh & Hs').
        exists h. split; [| done].
        rewrite <- Hh. symmetry. apply getattr_class_frame.
        intros d [-> | Hd]%elem_of_cons.
        -- rewrite Hd1, !lookup_insert_ne by congruence. done.
        -- assert (d ≠ c).
           { intros ->. revert Hd. apply Hun; [by right | by left | done]. }
           rewrite Hd1, !lookup_insert_ne by congruence. done.
Qed.

(** ** What the loops leave alone *)

#[local] Instance keeps_dispatcher_refl : Reflexive keeps_dispatcher.
Proof. by intros s. Qed.

#[local] Instance keeps_dispatcher_trans : Transitive keeps_dispatcher.
Proof. unfold keeps_dispatcher. intros s1 s2 s3 H1 H2. by rewrite H2. Qed.

#[local] Instance keeps_slot_refl attr : Reflexive (keeps_slot attr).
Proof. by intros s. Qed.

#[local] Instance keeps_slot_trans attr : Transitive (keeps_slot attr).
Proof. unfold keeps_slot. intros s1 s2 s3 H1 H2. by rewrite H2. Qed.

#[local] Instance keeps_class_refl c : Reflexive (keeps_class c).
Proof. by intros s. Qed.

#[local] Instance keeps_class_trans c : Transitive (keeps_class c).
Proof.
  intros s1 s2 s3 [Hl1 Hd1] [Hl2 Hd2]. split; [auto |].
  intros attr. by rewrite Hd2.
Qed.

Lemma maintains_weaken {A} (R R' : relation State) (m : Patch A) :
  (∀ s s', R s s' → R' s s') → maintains R m → maintains R' m.
Proof. intros Hw Hm s. apply Hw, Hm. Qed.

Lemma wrap_class_keeps_dispatcher c :
  maintains keeps_dispatcher (wrap_class bases c).
Proof.
  unfold wrap_class. repeat (apply maintains_bind; [apply _ | | intros _]).
  - by intros s.
  - intros s. unfold wrap_function_wrapper.
    by destruct (getattr bases s (Class c) "handle").
  - intros s. unfold wrap_function_wrapper.
    by destruct (getattr bases s (Class c) "handle_many").
Qed.

Lemma unwrap_slot_local : slot_local (unwrap bases).
Proof.
  split.
  - intros c attr s. unfold unwrap.
    by destruct (getattr bases s (Class c) attr) as [[] |].
  - intros attr other Hne s. unfold unwrap, keeps_slot.
    destruct (getattr bases s DispatcherModule attr) as [[] |]; try done.
    simpl. by rewrite lookup_insert_ne.
Qed.

Lemma unwrap_class_keeps_dispatcher u c :
  slot_local u → maintains keeps_dispatcher (unwrap_class u c).
Proof.
  intros [Hcls _]. unfold unwrap_class.
  apply maintains_bind; [apply _ | | intros _]; apply Hcls.
Qed.

Lemma wrap_class_keeps_class base c :
  c ≠ base → maintains (keeps_class base) (wrap_class bases c).
Proof.
  intros Hne. unfold wrap_class.
  repeat (apply maintains_bind; [apply _ | | intros _]).
  - intros s. split; [| done]. simpl. intros Hin.
    rewrite not_elem_of_app, not_elem_of_cons. split; [done |].
    split; [done | apply not_elem_of_nil].
  - intros s. unfold wrap_function_wrapper.
    destruct (getattr bases s (Class c) "handle"); [| done].
    split; [done |]. intros attr. simpl. rewrite lookup_insert_ne; congruence.
  - intros s. unfold wrap_function_wrapper.
    destruct (getattr bases s (Class c) "handle_many"); [| done].
    split; [done |]. intros attr. simpl. rewrite lookup_insert_ne; congruence.
Qed.

Lemma uninstrument_as_loop u s :
  _uninstrument u s =
  (for_each (_instrumented_classes s) (unwrap_class u) ;;
   u DispatcherModule "dispatch") s.
Proof. reflexivity. Qed.

(** ** The classes [_instrument] accepts *)

Lemma elem_of_discovered c :
  c ∈ discovered handlers bases BaseEventHandler ↔
  reachable handlers c
  ∧ issubclass bases c BaseEventHandler = true
  ∧ c ≠ BaseEventHandler.
Proof.
  unfold discovered, candidates, getmembers, reachable.
  rewrite list_elem_of_omap. split.
  - intros ([n m] & Hin & Hsel).
    apply list_elem_of_In, in_flat_map in Hin as ([mn mm] & Hmod & Hcls).
    apply filter_In in Hmod as [Hmod Hism].
    apply filter_In in Hcls as [Hcls _].
    destruct mm as [ms | |]; try discriminate.
    destruct m as [| c' |]; try discriminate.
    simpl in Hsel.
    destruct (issubclass bases c' BaseEventHandler) eqn:Hsub; [| done].
    destruct (bool_decide (c' = BaseEventHandler)) eqn:Hbase; [done |].
    simpl in Hsel. injection Hsel as ->.
    split; [| split; [done |]].
    + exists mn, ms, n. split; by apply list_elem_of_In.
    + by apply bool_decide_eq_false in Hbase.
  - intros ((mn & ms & n & Hmod & Hcls) & Hsub & Hne).
    exists (n, MClass c). split.
    + apply list_elem_of_In, in_flat_map. exists (mn, MModule ms). split.
      * apply filter_In. split; [by apply list_elem_of_In | done].
      * apply filter_In. split; [by apply list_elem_of_In | done].
    + simpl. rewrite Hsub. by rewrite bool_decide_eq_false_2.
Qed.

Lemma uninstrumented_getattr s t attr f :
  uninstrumented s → getattr bases s t attr = Some f → layers f = 0.
Proof.
  intros (_ & Hcls & Hdisp). destruct t as [c |]; unfold getattr.
  - intros (d & _ & Hd)%find_in_mro_Some. exact (Hcls _ _ Hd).
  - intros Hd. exact (Hdisp _ _ Hd).
Qed.

Lemma count_NoDup (l : list string) c :
  NoDup l → c ∈ l → length (List.filter (λ d, bool_decide (d = c)) l) = 1.
Proof.
  induction 1 as [| x l Hx Hnd IH]; [by intros ?%elem_of_nil |].
  intros [-> | Hc]%elem_of_cons; simpl.
  - rewrite bool_decide_eq_true_2 by done. simpl. f_equal.
    apply length_zero_iff_nil. clear -Hx.
    induction l as [| y l IH]; [done |]. simpl.
    apply not_elem_of_cons in Hx as [Hne Hx].
    rewrite bool_decide_eq_false_2 by congruence. by apply IH.
  - rewrite bool_decide_eq_false_2 by (intros ->; done). by apply IH.
Qed.

(** ** The claims about [_instrument] and [_uninstrument] *)

(** C1 (as the code has it): after an [_instrument] that returned,
    [_uninstrument] leaves the module attribute [_dispatch] holding the
    wrapper that [_instrument] put there, not the function it held
    before: [_instrument] wraps ["_dispatch"] and [_uninstrument] unwraps
    ["dispatch"].  This holds for every [unwrap] that touches nothing but
    the attribute it is given. *)
Theorem uninstrument_leaves_dispatch_wrapped u s s1 :
  slot_local u →
  _instrument handlers bases BaseEventHandler s = (Return tt, s1) →
  ∃ f,
    dispatcher s !! "_dispatch" = Some f
    ∧ dispatcher (_uninstrument u s1).2 !! "_dispatch" =
        Some (FunctionWrapper f dispatch_wrapper_fn)
    ∧ dispatcher (_uninstrument u s1).2 !! "_dispatch" ≠
        dispatcher s !! "_dispatch".
Proof.
  intros Hlocal. rewrite instrument_as_loop. unfold mbind, patch_bind.
  pose proof (maintains_for_each keeps_dispatcher
                (discovered handlers bases BaseEventHandler) (wrap_class bases)
                (λ c _, wrap_class_keeps_dispatcher c) s) as Hloop.
  destruct (for_each _ (wrap_class bases) s) as [[[] | e] s0]; [| done].
  unfold keeps_dispatcher in Hloop; simpl in Hloop.
  unfold wrap_function_wrapper; simpl. rewrite Hloop.
  destruct (dispatcher s !! "_dispatch") as [f |] eqn:Hf; [| done].
  intros [= <-]. exists f. split; [done |].
  assert (Hkept : keeps_slot "_dispatch"
            {| class_dict := class_dict s0;
               dispatcher :=
                 <["_dispatch" := FunctionWrapper f dispatch_wrapper_fn]>
                   (dispatcher s0);
               _instrumented_classes := _instrumented_classes s0 |}
            (_uninstrument u
               {| class_dict := class_dict s0;
                  dispatcher :=
                    <["_dispatch" := FunctionWrapper f dispatch_wrapper_fn]>
                      (dispatcher s0);
                  _instrumented_classes := _instrumented_classes s0 |}).2).
  { rewrite uninstrument_as_loop.
    apply (maintains_bind (keeps_slot "_dispatch")).
    - apply (maintains_weaken keeps_dispatcher).
      { intros x y Hxy. unfold keeps_dispatcher in Hxy. unfold keeps_slot.
        by rewrite Hxy. }
      apply maintains_for_each; [apply _ | apply _ |].
      intros c _. by apply unwrap_class_keeps_dispatcher.
    - intros _. by apply Hlocal. }
  unfold keeps_slot in Hkept; simpl in Hkept.
  rewrite lookup_insert_eq in Hkept.
  split; [exact Hkept |]. rewrite Hkept.
  intros [= Heq]. apply (f_equal layers) in Heq. simpl in Heq. lia.
Qed.

(** C5: [_instrument] on a fresh instrumentor never records
    [BaseEventHandler] and never stores anything in its method table;
    when it returns, the classes it has recorded are exactly the classes
    reachable from the handlers namespace that subclass
    [BaseEventHandler] and are not [BaseEventHandler] itself. *)
Theorem instrument_records_handler_subclasses s :
  let r := _instrument handlers bases BaseEventHandler (__init__ s) in
  (BaseEventHandler ∉ _instrumented_classes (snd r))
  ∧ (∀ attr, class_dict (snd r) !! (BaseEventHandler, attr) =
             class_dict s !! (BaseEventHandler, attr))
  ∧ (fst r = Return tt →
     ∀ c, c ∈ _instrumented_classes (snd r) ↔
          reachable handlers c
          ∧ issubclass bases c BaseEventHandler = true
          ∧ c ≠ BaseEventHandler).
Proof.
  intros r.
  assert (Hkeep : keeps_class BaseEventHandler (__init__ s) (snd r)).
  { unfold r. rewrite instrument_as_loop.
    apply (maintains_bind (keeps_class BaseEventHandler)).
    - apply maintains_for_each; [apply _ | apply _ |].
      intros c Hc. apply wrap_class_keeps_class.
      by apply elem_of_discovered in Hc as (_ & _ & ?).
    - intros _ s0. unfold wrap_function_wrapper.
      by destruct (getattr bases s0 DispatcherModule "_dispatch"). }
  destruct Hkeep as [Hlist Hdict].
  split; [apply Hlist, not_elem_of_nil |].
  split; [exact Hdict |].
  intros Hret c. rewrite <- elem_of_discovered.
  unfold r in *. clear r Hlist Hdict. revert Hret.
  rewrite instrument_as_loop. unfold mbind, patch_bind.
  destruct (for_each _ (wrap_class bases) (__init__ s)) as [[[] | e] s0] eqn:Hloop;
    [| done].
  apply wrap_classes_run in Hloop as (Hl & _).
  unfold wrap_function_wrapper.
  destruct (getattr bases s0 DispatcherModule "_dispatch"); [| done].
  intros _. simpl. by rewrite Hl.
Qed.

(** C7 (amended): when the handlers namespace lists every accepted class
    once and no accepted class inherits from another accepted class, one
    [_instrument] that returns on an uninstrumented process records every
    accepted class exactly once, and each of its two methods then
    resolves to one wrapper around the function it resolved to before. *)
Theorem instrument_wraps_once_when_unrelated s s' :
  uninstrumented s →
  NoDup (discovered handlers bases BaseEventHandler) →
  unrelated bases (discovered handlers bases BaseEventHandler) →
  _instrument handlers bases BaseEventHandler s = (Return tt, s') →
  _instrumented_classes s' = discovered handlers bases BaseEventHandler
  ∧ ∀ c, c ∈ _instrumented_classes s' →
      length (List.filter (λ d, bool_decide (d = c)) (_instrumented_classes s')) = 1
      ∧ (∃ f, getattr bases s (Class c) "handle" = Some f
              ∧ getattr bases s' (Class c) "handle" =
                  Some (FunctionWrapper f handle_wrapper_fn)
              ∧ layers (FunctionWrapper f handle_wrapper_fn) = 1)
      ∧ (∃ g, getattr bases s (Class c) "handle_many" = Some g
              ∧ getattr bases s' (Class c) "handle_many" =
                  Some (FunctionWrapper g handle_many_wrapper_fn)
              ∧ layers (FunctionWrapper g handle_many_wrapper_fn) = 1).
Proof.
  intros Hun Hnd Hrel. rewrite instrument_as_loop. unfold mbind, patch_bind.
  destruct (for_each _ (wrap_class bases) s) as [[[] | e] s0] eqn:Hloop; [| done].
  apply wrap_classes_run in Hloop as (Hl & _ & _ & Hwrapped).
  specialize (Hwrapped Hnd Hrel).
  unfold wrap_function_wrapper.
  destruct (getattr bases s0 DispatcherModule "_dispatch") as [d0 |]; [| done].
  intros [= <-]. simpl.
  assert (Hlist : _instrumented_classes s0 =
                  discovered handlers bases BaseEventHandler).
  { rewrite Hl. destruct Hun as (-> & _). done. }
  split; [exact Hlist |].
  intros c Hc. rewrite Hlist in Hc |- *.
  split; [by apply count_NoDup |].
  split.
  - destruct (Hwrapped c "handle" Hc (or_introl eq_refl)) as (f & Hf & Hs').
    exists f. split; [done |]. split.
    + unfold getmro. by apply find_in_mro_head.
    + simpl. f_equal. by apply (uninstrumented_getattr s (Class c) "handle").
  - destruct (Hwrapped c "handle_many" Hc (or_intror eq_refl)) as (g & Hg & Hs').
    exists g. split; [done |]. split.
    + unfold getmro. by apply find_in_mro_head.
    + simpl. f_equal. by apply (uninstrumented_getattr s (Class c) "handle_many").
Qed.

(** C8 (amended): on a process where nothing has been instrumented,
    [_uninstrument] signals no error: it has no guard of its own, the
    loop over the empty list does nothing, and unwrapping the
    never-wrapped [dispatch] is a no-op, so the call returns normally
    and changes nothing. *)
Theorem uninstrument_without_install_is_noop s :
  uninstrumented s → _uninstrument (unwrap bases) s = (Return tt, s).
Proof.
  intros (Hl & _ & Hdisp). rewrite uninstrument_as_loop, Hl.
  unfold mbind, patch_bind; simpl. unfold unwrap; simpl.
  destruct (dispatcher s !! "dispatch") as [f |] eqn:Hf; [| done].
  specialize (Hdisp _ _ Hf). by destruct f.
Qed.

End Lifecycle.

(** ** Undoing the class wrappers *)

Section Restore.

Variable handlers : list (string * Member).
Variable bases : string → list string.
Variable BaseEventHandler : string.

Lemma unwrap_own_run c attr s f w :
  class_dict s !! (c, attr) = Some (FunctionWrapper f w) →
  unwrap bases (Class c) attr s =
  (Return tt,
   {| class_dict := <[(c, attr) := f]> (class_dict s);
      dispatcher := dispatcher s;
      _instrumented_classes := _instrumented_classes s |}).
Proof.
  intros H. unfold unwrap. by rewrite (getattr_class_own bases s c attr _ H).
Qed.

Lemma unwrap_classes_run l s :
  NoDup l →
  (∀ c, c ∈ l →
     ∃ f g, class_dict s !! (c, "handle") =
              Some (FunctionWrapper f handle_wrapper_fn)
            ∧ class_dict s !! (c, "handle_many") =
                Some (FunctionWrapper g handle_many_wrapper_fn)) →
  ∃ s',
    for_each l (unwrap_class (unwrap bases)) s = (Return tt, s')
    ∧ dispatcher s' = dispatcher s
    ∧ _instrumented_classes s' = _instrumented_classes s
    ∧ (∀ d a, d ∉ l → class_dict s' !! (d, a) = class_dict s !! (d, a))
    ∧ (∀ c a f w, c ∈ l → a = "handle" ∨ a = "handle_many" →
         class_dict s !! (c, a) = Some (FunctionWrapper f w) →
         class_dict s' !! (c, a) = Some f).
Proof.
  revert s. induction l as [| c l IH]; intros s Hnd Hwrapped.
  - exists s. repeat (split; [done |]).
    intros c a f w Hc. by apply elem_of_nil in Hc.
  - apply NoDup_cons in Hnd as [Hcl Hnd].
    destruct (Hwrapped c) as (f & g & Hf & Hg); [by left |].
    cbn [for_each]. unfold mbind at 1, patch_bind.
    unfold unwrap_class at 1. unfold mbind at 1, patch_bind.
    rewrite (unwrap_own_run c "handle" s f handle_wrapper_fn Hf).
    rewrite (unwrap_own_run c "handle_many" _ g handle_many_wrapper_fn)
      by (simpl; by rewrite lookup_insert_ne).
    cbn [class_dict dispatcher _instrumented_classes].
    set (s2 := {| class_dict := <[(c, "handle_many") := g]>
                                  (<[(c, "handle") := f]> (class_dict s));
                  dispatcher := dispatcher s;
                  _instrumented_classes := _instrumented_classes s |}).
    assert (Hother : ∀ d a, d ≠ c → class_dict s2 !! (d, a) = class_dict s !! (d, a)).
    { intros d a Hd. simpl. rewrite !lookup_insert_ne by congruence. done. }
    destruct (IH s2 Hnd) as (s' & Hrun & Hp & Hl & Hframe & Hrest).
    { intros d Hd. assert (d ≠ c) by (intros ->; done).
      rewrite !Hother by done. apply Hwrapped. by right. }
    exists s'. split; [exact Hrun |]. split; [by rewrite Hp |].
    split; [by rewrite Hl |]. split.
    + intros d a [Hdc Hdl]%not_elem_of_cons.
      rewrite Hframe by done. by apply Hother.
    + intros c0 a f0 w0 [-> | Hc0]%elem_of_cons Ha Hs.
      * rewrite Hframe by done. simpl.
        destruct Ha as [-> | ->].
        -- rewrite lookup_insert_ne by congruence. rewrite lookup_insert_eq.
           rewrite Hf in Hs. by injection Hs as -> _.
        -- rewrite lookup_insert_eq. rewrite Hg in Hs. by injection Hs as -> _.
      * assert (c0 ≠ c) by (intros ->; done).
        apply (Hrest c0 a f0 w0 Hc0 Ha). by rewrite Hother.
Qed.

(** The part of C1 about the handler classes, under the conditions of
    the amended C7 and with [unwrap] as the specification words it:
    [_uninstrument] after [_instrument] returns and makes [handle] and
    [handle_many] of every recorded class resolve to the function they
    resolved to before [_instrument]. *)
Lemma uninstrument_restores_handler_methods s s1 :
  uninstrumented s →
  NoDup (discovered handlers bases BaseEventHandler) →
  unrelated bases (discovered handlers bases BaseEventHandler) →
  _instrument handlers bases BaseEventHandler s = (Return tt, s1) →
  fst (_uninstrument (unwrap bases) s1) = Return tt
  ∧ ∀ c, c ∈ _instrumented_classes s1 →
      getattr bases (snd (_uninstrument (unwrap bases) s1)) (Class c) "handle" =
        getattr bases s (Class c) "handle"
      ∧ getattr bases (snd (_uninstrument (unwrap bases) s1)) (Class c) "handle_many" =
          getattr bases s (Class c) "handle_many".
Proof.
  intros Hun Hnd Hrel. rewrite instrument_as_loop. unfold mbind, patch_bind.
  destruct (for_each _ (wrap_class bases) s) as [[[] | e] s0] eqn:Hloop; [| done].
  apply wrap_classes_run in Hloop as (Hl & Hp & _ & Hwrapped).
  specialize (Hwrapped Hnd Hrel).
  unfold wrap_function_wrapper.
  destruct (getattr bases s0 DispatcherModule "_dispatch") as [d0 |]; [| done].
  intros [= <-].
  assert (Hlist : _instrumented_classes s0 =
                  discovered handlers bases BaseEventHandler).
  { rewrite Hl. by destruct Hun as (-> & _). }
  set (s1 := {| class_dict := class_dict s0;
                dispatcher := <["_dispatch" := FunctionWrapper d0 dispatch_wrapper_fn]>
                                (dispatcher s0);
                _instrumented_classes := _instrumented_classes s0 |}).
  destruct (unwrap_classes_run (discovered handlers bases BaseEventHandler) s1 Hnd)
    as (s2 & Hrun & Hp2 & Hl2 & _ & Hrest).
  { intros c Hc.
    destruct (Hwrapped c "handle" Hc (or_introl eq_refl)) as (f & _ & Hf).
    destruct (Hwrapped c "handle_many" Hc (or_intror eq_refl)) as (g & _ & Hg).
    by exists f, g. }
  assert (Hfinal : _uninstrument (unwrap bases) s1 = (Return tt, s2)).
  { rewrite uninstrument_as_loop. unfold mbind, patch_bind.
    change (_instrumented_classes s1) with (_instrumented_classes s0).
    rewrite Hlist, Hrun. unfold unwrap, getattr. rewrite Hp2. simpl.
    rewrite lookup_insert_ne by done. rewrite Hp.
    destruct (dispatcher s !! "dispatch") as [g |] eqn:Hg; [| done].
    destruct Hun as (_ & _ & Hdisp). specialize (Hdisp _ _ Hg). by destruct g. }
  rewrite Hfinal. split; [done |].
  change (_instrumented_classes s1) with (_instrumented_classes s0).
  rewrite Hlist. intros c Hc. cbn [snd]. split.
  - destruct (Hwrapped c "handle" Hc (or_introl eq_refl)) as (f & Hf & Hs0).
    rewrite Hf. apply getattr_class_own.
    by apply (Hrest c "handle" f handle_wrapper_fn Hc (or_introl eq_refl)).
  - destruct (Hwrapped c "handle_many" Hc (or_intror eq_refl)) as (g & Hg & Hs0).
    rewrite Hg. apply getattr_class_own.
    by apply (Hrest c "handle_many" g handle_many_wrapper_fn Hc (or_intror eq_refl)).
Qed.

End Restore.

(** ** The lifecycle on the small process *)

Lemma demo_process_uninstrumented : uninstrumented Demo.process.
Proof.
  split; [reflexivity |]. split.
  - unfold Demo.process; simpl.
    repeat (apply map_Forall_insert_2; [reflexivity |]).
    apply map_Forall_empty.
  - unfold Demo.process; simpl.
    repeat (apply map_Forall_insert_2; [reflexivity |]).
    apply map_Forall_empty.
Qed.

Lemma demo_discovered :
  discovered Demo.handlers Demo.bases Demo.Base = [Demo.Echo; Demo.Local].
Proof. vm_compute. reflexivity. Qed.

Lemma demo_discovered_NoDup :
  NoDup (discovered Demo.handlers Demo.bases Demo.Base).
Proof.
  rewrite demo_discovered. apply NoDup_cons. split.
  - intros Hin%list_elem_of_In. vm_compute in Hin. intuition discriminate.
  - apply NoDup_singleton.
Qed.

Lemma demo_discovered_unrelated :
  unrelated Demo.bases (discovered Demo.handlers Demo.bases Demo.Base).
Proof.
  rewrite demo_discovered. intros c d Hc Hd Hne Hin.
  apply list_elem_of_In in Hc, Hd, Hin. simpl in Hc, Hd.
  destruct Hc as [<- | [<- | []]], Hd as [<- | [<- | []]]; try done;
    vm_compute in Hin; intuition discriminate.
Qed.

Lemma uninstrument_leaves_dispatch_wrapped_witness :
  dispatcher
    (_uninstrument (unwrap Demo.bases)
       (_instrument Demo.handlers Demo.bases Demo.Base Demo.process).2).2
    !! "_dispatch" =
  Some (FunctionWrapper (Function "_dispatch") dispatch_wrapper_fn).
Proof.
  destruct (uninstrument_leaves_dispatch_wrapped
              Demo.handlers Demo.bases Demo.Base (unwrap Demo.bases) Demo.process
              (_instrument Demo.handlers Demo.bases Demo.Base Demo.process).2)
    as (f & Hf & Hw & _).
  - apply unwrap_slot_local.
  - vm_compute. reflexivity.
  - vm_compute in Hf. injection Hf as <-. exact Hw.
Defined.

Lemma instrument_records_handler_subclasses_witness :
  Demo.Local ∈
    _instrumented_classes
      (snd (_instrument Demo.handlers Demo.bases Demo.Base (__init__ Demo.process)))
  ∧ Demo.Base ∉
      _instrumented_classes
        (snd (_instrument Demo.handlers Demo.bases Demo.Base (__init__ Demo.process))).
Proof.
  destruct (instrument_records_handler_subclasses
              Demo.handlers Demo.bases Demo.Base Demo.process)
    as (Hbase & _ & Hall).
  split; [| exact Hbase].
  apply Hall; [vm_compute; reflexivity |].
  split; [| split].
  - exists "local",
      [("BaseEventHandler", MClass Demo.Base);
       ("LocalHandler", MClass Demo.Local);
       ("local_handler", MOther)],
      "LocalHandler".
    split; apply list_elem_of_In; simpl; tauto.
  - vm_compute. reflexivity.
  - discriminate.
Defined.

Lemma instrument_wraps_once_when_unrelated_witness :
  let s' := (_instrument Demo.handlers Demo.bases Demo.Base Demo.process).2 in
  _instrumented_classes s' = [Demo.Echo; Demo.Local]
  ∧ length (List.filter (λ d, bool_decide (d = Demo.Local))
              (_instrumented_classes s')) = 1
  ∧ getattr Demo.bases s' (Class Demo.Local) "handle_many" =
      Some (FunctionWrapper (Function "BaseEventHandler.handle_many")
              handle_many_wrapper_fn).
Proof.
  intros s'.
  destruct (instrument_wraps_once_when_unrelated
              Demo.handlers Demo.bases Demo.Base Demo.process s'
              demo_process_uninstrumented demo_discovered_NoDup
              demo_discovered_unrelated)
    as (Hlist & Hall).
  - vm_compute. reflexivity.
  - rewrite demo_discovered in Hlist. split; [exact Hlist |].
    destruct (Hall Demo.Local) as (Hcount & _ & (g & Hg & Hs' & _)).
    + rewrite Hlist. apply list_elem_of_In. simpl. tauto.
    + split; [exact Hcount |].
      vm_compute in Hg. injection Hg as <-. exact Hs'.
Defined.

Lemma uninstrument_without_install_is_noop_witness :
  _uninstrument (unwrap Demo.bases) Demo.process = (Return tt, Demo.process).
Proof.
  apply (uninstrument_without_install_is_noop Demo.bases Demo.process).
  exact demo_process_uninstrumented.
Defined.

(** C8 (as stated) fails: on the small process, where nothing has been
    instrumented, [_uninstrument] returns normally. *)
Lemma uninstrument_without_install_returns :
  ¬ fails_loudly (unwrap Demo.bases) Demo.process.
Proof.
  intros H. destruct (H demo_process_uninstrumented) as [e He].
  vm_compute in He. discriminate.
Qed.

(** With nothing recorded, [_uninstrument] is the one call
    [unwrap(fastapi_events.dispatcher, "dispatch")], for any [unwrap]. *)
Lemma uninstrument_nothing_recorded u s :
  _instrumented_classes s = [] →
  _uninstrument u s = u DispatcherModule "dispatch" s.
Proof.
  intros Hl. rewrite uninstrument_as_loop, Hl. reflexivity.
Qed.

(** After [_instrument], handling the event of the test suite through
    [LocalHandler.handle] emits the one span the test suite looks for. *)
Lemma demo_handle_after_instrument :
  let s' := (_instrument Demo.handlers Demo.bases Demo.Base Demo.process).2 in
  (λ f, call (λ q, original q (Return VNone)) VNone f [visitor_spotted] ∅)
    <$> getattr Demo.bases s' (Class Demo.Local) "handle" =
  Some ([SpanStart "handling event VISITOR_SPOTTED" CONSUMER;
         Invoked "LocalHandler.handle" [visitor_spotted] ∅;
         SpanEnd "handling event VISITOR_SPOTTED" UNSET],
        Return VNone).
Proof. vm_compute. reflexivity. Qed.

(** In the namespace that lists [LocalHandler] twice the same call emits
    two spans, one inside the other. *)
Lemma demo_handle_after_instrument_shared :
  let s' := (_instrument Demo.handlers_shared Demo.bases Demo.Base Demo.process).2 in
  (λ f, call (λ q, original q (Return VNone)) VNone f [visitor_spotted] ∅)
    <$> getattr Demo.bases s' (Class Demo.Local) "handle" =
  Some ([SpanStart "handling event VISITOR_SPOTTED" CONSUMER;
         SpanStart "handling event VISITOR_SPOTTED" CONSUMER;
         Invoked "LocalHandler.handle" [visitor_spotted] ∅;
         SpanEnd "handling event VISITOR_SPOTTED" UNSET;
         SpanEnd "handling event VISITOR_SPOTTED" UNSET],
        Return VNone).
Proof. vm_compute. reflexivity. Qed.

(** C7 (as stated) fails: in a namespace where the module [echo] imports
    [LocalHandler] from the module [local], the class is a member of both
    modules; one [_instrument] records it twice and leaves two wrappers
    on each of its methods. *)
Lemma instrument_wraps_shared_class_twice :
  ¬ wraps_once Demo.handlers_shared Demo.bases Demo.Base Demo.process.
Proof.
  intros H.
  destruct (H demo_process_uninstrumented
              (_instrument Demo.handlers_shared Demo.bases Demo.Base Demo.process).2)
    with (c := Demo.Local) as (Hcount & _).
  - vm_compute. reflexivity.
  - apply list_elem_of_In. vm_compute. tauto.
  - vm_compute in Hcount. discriminate.
Qed.

(** The copy under [opentelemetry-instrumentation-fastapi-events] has no
    test against [BaseEventHandler] itself: on the same namespace it
    records and wraps the base class, once for every module that lists
    it. *)
Lemma legacy_instrument_records_base :
  let r := Legacy._instrument Demo.handlers Demo.bases Demo.Base Demo.process in
  r.1 = Return tt
  ∧ _instrumented_classes r.2 =
      [Demo.Base; Demo.Base; Demo.Echo; Demo.Base; Demo.Local]
  ∧ (layers <$> class_dict r.2 !! (Demo.Base, "handle")) = Some 3.
Proof. vm_compute. repeat split. Qed.

(** * Further properties of the wrappers *)

Section WrapperCases.

Variable wrapped : Callee.
Variable instance : Value.

(** X1: what the single-event wrapper does is decided by the event it
    picks.  For [None] it raises [TypeError], for an empty tuple or list
    [IndexError], in both cases having emitted nothing (no span, original
    not entered).  For a non-empty tuple or list the run is one consumer
    span, named after the rendering of the first element, around one call
    of the original with the event as its only argument. *)
Theorem handle_wrapper_by_event args kwargs :
  let event := picked args kwargs "event" in
  (event = VNone →
   _handle_wrapper wrapped instance args kwargs = ([], Raise TypeError))
  ∧ (∀ text, event = VSeq [] text →
     _handle_wrapper wrapped instance args kwargs = ([], Raise IndexError))
  ∧ (∀ first rest text, event = VSeq (first :: rest) text →
     scoped_run ("handling event " +:+ format first) CONSUMER
       (emitted (wrapped [event] ∅)) (outcome (wrapped [event] ∅))
       (_handle_wrapper wrapped instance args kwargs)).
Proof.
  intros event. split; [| split].
  - intros Hev. unfold _handle_wrapper. fold (picked args kwargs "event").
    fold event. by rewrite Hev.
  - intros text Hev. unfold _handle_wrapper. fold (picked args kwargs "event").
    fold event. by rewrite Hev.
  - intros first rest text Hev.
    rewrite (handle_wrapper_run wrapped instance args kwargs first).
    + apply scoped_run_intro.
    + fold event. by rewrite Hev.
Qed.

(** X2: the handling wrappers look at nothing but the argument they
    pick: two calls that agree on [args[0] if args else kwargs.get(key)]
    run alike, whatever further positional or keyword arguments they
    carry and whether the argument came by position or by keyword. *)
Theorem handling_wrappers_depend_on_picked args kwargs args' kwargs' :
  (picked args kwargs "event" = picked args' kwargs' "event" →
   _handle_wrapper wrapped instance args kwargs =
   _handle_wrapper wrapped instance args' kwargs')
  ∧ (picked args kwargs "events" = picked args' kwargs' "events" →
     _handle_many_wrapper wrapped instance args kwargs =
     _handle_many_wrapper wrapped instance args' kwargs').
Proof.
  split; intros Hpick.
  - unfold _handle_wrapper.
    fold (picked args kwargs "event") (picked args' kwargs' "event").
    by rewrite Hpick.
  - unfold _handle_many_wrapper.
    fold (picked args kwargs "events") (picked args' kwargs' "events").
    by rewrite Hpick.
Qed.

(** X3: called with no positional argument and no keyword [events], the
    multi-event wrapper does not raise of its own: it opens its span and
    calls the original with [None]. *)
Theorem handle_many_wrapper_missing_events kwargs :
  kwargs !! "events" = None →
  scoped_run "handling multiple events" CONSUMER
    (emitted (wrapped [VNone] ∅)) (outcome (wrapped [VNone] ∅))
    (_handle_many_wrapper wrapped instance [] kwargs).
Proof.
  intros Hkw. unfold _handle_many_wrapper, dict_get. rewrite Hkw. simpl.
  apply scoped_run_intro.
Qed.

End WrapperCases.

Lemma handle_wrapper_by_event_witness :
  _handle_wrapper (original "handle" (Return VNone)) VNone [VNone] ∅ =
    ([], Raise TypeError)
  ∧ _handle_wrapper (original "handle" (Return VNone)) VNone [VSeq [] "()"] ∅ =
      ([], Raise IndexError)
  ∧ scoped_run "handling event VISITOR_SPOTTED" CONSUMER
      [Invoked "handle" [visitor_spotted] ∅] (Return VNone)
      (_handle_wrapper (original "handle" (Return VNone)) VNone
         [visitor_spotted] ∅).
Proof.
  split; [| split].
  - destruct (handle_wrapper_by_event (original "handle" (Return VNone)) VNone
                [VNone] ∅) as (Hnone & _ & _).
    apply Hnone. reflexivity.
  - destruct (handle_wrapper_by_event (original "handle" (Return VNone)) VNone
                [VSeq [] "()"] ∅) as (_ & Hempty & _).
    apply (Hempty "()"). reflexivity.
  - destruct (handle_wrapper_by_event (original "handle" (Return VNone)) VNone
                [visitor_spotted] ∅) as (_ & _ & Hseq).
    apply (Hseq (VStr "VISITOR_SPOTTED") [VNone] "('VISITOR_SPOTTED', None)").
    reflexivity.
Defined.

Lemma handling_wrappers_depend_on_picked_witness :
  _handle_wrapper (original "handle" (Return VNone)) VNone
    [visitor_spotted; VStr "extra"] {["event" := VNone]} =
  _handle_wrapper (original "handle" (Return VNone)) VNone
    [] {["event" := visitor_spotted]}
  ∧ _handle_many_wrapper (original "handle_many" (Return VNone)) VNone
      [visitor_spotted; VStr "extra"] {["events" := VNone]} =
    _handle_many_wrapper (original "handle_many" (Return VNone)) VNone
      [] {["events" := visitor_spotted]}.
Proof.
  destruct (handling_wrappers_depend_on_picked
              (original "handle" (Return VNone)) VNone
              [visitor_spotted; VStr "extra"] {["event" := VNone]}
              [] {["event" := visitor_spotted]}) as [Hh _].
  destruct (handling_wrappers_depend_on_picked
              (original "handle_many" (Return VNone)) VNone
              [visitor_spotted; VStr "extra"] {["events" := VNone]}
              [] {["events" := visitor_spotted]}) as [_ Hm].
  split; [apply Hh | apply Hm]; reflexivity.
Defined.

Lemma handle_many_wrapper_missing_events_witness :
  _handle_many_wrapper (original "handle_many" (Return VNone)) VNone []
    {["event" := visitor_spotted]} =
  ([SpanStart "handling multiple events" CONSUMER;
    Invoked "handle_many" [VNone] ∅;
    SpanEnd "handling multiple events" UNSET],
   Return VNone).
Proof.
  apply (handle_many_wrapper_missing_events
           (original "handle_many" (Return VNone)) VNone
           {["event" := visitor_spotted]}).
  reflexivity.
Defined.

(** ** Wrappers around wrappers *)

Lemma own_events_scope name kind evs status :
  own_events (SpanStart name kind :: evs ++ [SpanEnd name status]) =
  own_events evs.
Proof.
  unfold own_events. simpl. rewrite List.filter_app. simpl.
  by rewrite app_nil_r.
Qed.

Lemma scope_measures tracer name kind (body : Exec Value) :
  let run := start_as_current_span tracer name kind body in
  outcome run = outcome body
  ∧ own_events (emitted run) = own_events (emitted body)
  ∧ spans_started (emitted run) = S (spans_started (emitted body))
  ∧ spans_ended (emitted run) = S (spans_ended (emitted body)).
Proof.
  intros run. unfold run. rewrite start_as_current_span_run.
  destruct body as [evs o]. unfold outcome, emitted. cbn [fst snd].
  split; [done |]. split; [apply own_events_scope |].
  split; [apply spans_started_scope | apply (spans_ended_scope name kind)].
Qed.

Section Nesting.

Variable functions : string → Callee.
Variable instance : Value.

(** X4: a dispatcher slot that holds [n] dispatch wrappers around a
    plain function, when called, runs the plain function once with the
    caller's own arguments, gives its outcome back, adds nothing to its
    events but spans, and starts and ends [n] spans more than it does. *)
Theorem dispatch_wrappers_nest f args kwargs :
  wrapped_only_by dispatch_wrapper_fn f = true →
  let plain := functions (root f) args kwargs in
  let run := call functions instance f args kwargs in
  outcome run = outcome plain
  ∧ own_events (emitted run) = own_events (emitted plain)
  ∧ spans_started (emitted run) = layers f + spans_started (emitted plain)
  ∧ spans_ended (emitted run) = layers f + spans_ended (emitted plain).
Proof.
  induction f as [q | g IH w]; intros Hw; [done |].
  destruct w; try discriminate. simpl in Hw. specialize (IH Hw).
  destruct IH as (Ho & Hown & Hs & He).
  cbn [call wrapper_function root layers]. unfold _dispatch_wrapper.
  match goal with
  | |- context [start_as_current_span ?t ?n ?k ?b] =>
      destruct (scope_measures t n k b) as (-> & -> & -> & ->)
  end.
  rewrite Ho, Hown, Hs, He. done.
Qed.

(** X5: a handler slot that holds [n] single-event wrappers around a
    plain [handle], when called with an event whose first element can be
    taken, runs the plain function once with that event alone, gives its
    outcome back, adds nothing to its events but spans, and starts [n]
    spans more than it does. *)
Theorem handle_wrappers_nest f args kwargs name :
  wrapped_only_by handle_wrapper_fn f = true →
  layers f ≠ 0 →
  getitem0 (picked args kwargs "event") = ([], Return name) →
  let plain := functions (root f) [picked args kwargs "event"] ∅ in
  let run := call functions instance f args kwargs in
  outcome run = outcome plain
  ∧ own_events (emitted run) = own_events (emitted plain)
  ∧ spans_started (emitted run) = layers f + spans_started (emitted plain)
  ∧ spans_ended (emitted run) = layers f + spans_ended (emitted plain).
Proof.
  revert args kwargs.
  induction f as [q | g IH w]; intros args kwargs Hw Hn Hname; [done |].
  destruct w; try discriminate. simpl in Hw.
  cbn [call wrapper_function root layers].
  rewrite (handle_wrapper_run _ instance args kwargs name Hname).
  match goal with
  | |- context [start_as_current_span ?t ?n ?k ?b] =>
      destruct (scope_measures t n k b) as (-> & -> & -> & ->)
  end.
  set (event := picked args kwargs "event") in *.
  assert (Hinner :
    outcome (call functions instance g [event] ∅) =
      outcome (functions (root g) [event] ∅)
    ∧ own_events (emitted (call functions instance g [event] ∅)) =
        own_events (emitted (functions (root g) [event] ∅))
    ∧ spans_started (emitted (call functions instance g [event] ∅)) =
        layers g + spans_started (emitted (functions (root g) [event] ∅))
    ∧ spans_ended (emitted (call functions instance g [event] ∅)) =
        layers g + spans_ended (emitted (functions (root g) [event] ∅))).
  { destruct g as [q | g' w'].
    - simpl. done.
    - apply (IH [event] ∅ Hw); [done | exact Hname]. }
  destruct Hinner as (Ho & Hown & Hs & He).
  rewrite Ho, Hown, Hs, He. done.
Qed.

End Nesting.

Lemma dispatch_wrappers_nest_witness :
  let run :=
    call (λ q, original q (Return VNone)) VNone
      (wrapn 2 dispatch_wrapper_fn (Function "_dispatch")) []
      {["event_name" := VStr "VISITOR_SPOTTED"]} in
  outcome run = Return VNone
  ∧ own_events (emitted run) =
      [Invoked "_dispatch" [] {["event_name" := VStr "VISITOR_SPOTTED"]}]
  ∧ spans_started (emitted run) = 2
  ∧ spans_ended (emitted run) = 2.
Proof.
  apply (dispatch_wrappers_nest (λ q, original q (Return VNone)) VNone
           (wrapn 2 dispatch_wrapper_fn (Function "_dispatch")) []
           {["event_name" := VStr "VISITOR_SPOTTED"]}).
  reflexivity.
Defined.

Lemma handle_wrappers_nest_witness :
  let run :=
    call (λ q, original q (Raise (Exception "boom"))) VNone
      (wrapn 2 handle_wrapper_fn (Function "LocalHandler.handle"))
      [visitor_spotted] ∅ in
  outcome run = Raise (Exception "boom")
  ∧ own_events (emitted run) =
      [Invoked "LocalHandler.handle" [visitor_spotted] ∅]
  ∧ spans_started (emitted run) = 2
  ∧ spans_ended (emitted run) = 2.
Proof.
  apply (handle_wrappers_nest (λ q, original q (Raise (Exception "boom"))) VNone
           (wrapn 2 handle_wrapper_fn (Function "LocalHandler.handle"))
           [visitor_spotted] ∅ (VStr "VISITOR_SPOTTED")).
  - reflexivity.
  - discriminate.
  - reflexivity.
Defined.

(** * Further properties of the patch lifecycle *)

Open Scope nat_scope.

#[local] Instance keeps_recorded_refl : Reflexive keeps_recorded.
Proof. by intros s. Qed.

#[local] Instance keeps_recorded_trans : Transitive keeps_recorded.
Proof. unfold keeps_recorded. intros s1 s2 s3 H1 H2. by rewrite H2. Qed.

#[local] Instance keeps_entry_refl c a : Reflexive (keeps_entry c a).
Proof. by intros s. Qed.

#[local] Instance keeps_entry_trans c a : Transitive (keeps_entry c a).
Proof. unfold keeps_entry. intros s1 s2 s3 H1 H2. by rewrite H2. Qed.

#[local] Existing Instance keeps_dispatcher_refl.
#[local] Existing Instance keeps_dispatcher_trans.
#[local] Existing Instance keeps_slot_refl.
#[local] Existing Instance keeps_slot_trans.
#[local] Existing Instance keeps_class_refl.
#[local] Existing Instance keeps_class_trans.

Section MoreLifecycle.

Variable handlers : list (string * Member).
Variable bases : string → list string.
Variable BaseEventHandler : string.

Lemma wrap_class_returns c s f g :
  getattr bases s (Class c) "handle" = Some f →
  getattr bases s (Class c) "handle_many" = Some g →
  wrap_class bases c s =
  (Return tt,
   {| class_dict :=
        <[(c, "handle_many") := FunctionWrapper g handle_many_wrapper_fn]>
          (<[(c, "handle") := FunctionWrapper f handle_wrapper_fn]> (class_dict s));
      dispatcher := dispatcher s;
      _instrumented_classes := _instrumented_classes s ++ [c] |}).
Proof.
  intros Hf Hg. unfold wrap_class, mbind, patch_bind. cbn [append_instrumented].
  set (s0 := {| class_dict := class_dict s; dispatcher := dispatcher s;
                _instrumented_classes := _instrumented_classes s ++ [c] |}).
  unfold wrap_function_wrapper at 1.
  change (getattr bases s0 (Class c) "handle")
    with (getattr bases s (Class c) "handle").
  rewrite Hf. cbn [setattr]. unfold wrap_function_wrapper.
  set (s1 := {| class_dict := <[(c, "handle") := FunctionWrapper f handle_wrapper_fn]>
                                (class_dict s0);
                dispatcher := dispatcher s0;
                _instrumented_classes := _instrumented_classes s0 |}).
  assert (Hg1 : getattr bases s1 (Class c) "handle_many" = Some g).
  { rewrite <- Hg. apply getattr_class_frame. intros d _. simpl.
    by rewrite lookup_insert_ne. }
  rewrite Hg1. reflexivity.
Qed.

(** X6: from any state, an [_instrument] that returns has appended to the
    instrumentor's list the accepted classes, in the order the two loops
    meet them, one entry for every time a class is met; nothing already
    in the list is removed or reordered. *)
Theorem instrument_appends_discovered s s' :
  _instrument handlers bases BaseEventHandler s = (Return tt, s') →
  _instrumented_classes s' =
  _instrumented_classes s ++ discovered handlers bases BaseEventHandler.
Proof.
  rewrite instrument_as_loop. unfold mbind, patch_bind.
  destruct (for_each _ (wrap_class bases) s) as [[[] | e] s0] eqn:Hloop; [| done].
  apply wrap_classes_run in Hloop as (Hl & _).
  unfold wrap_function_wrapper.
  destruct (getattr bases s0 DispatcherModule "_dispatch") as [d0 |]; [| done].
  by intros [= <-].
Qed.

Lemma wrap_class_keeps_entry d c a :
  d ≠ c ∨ (a ≠ "handle" ∧ a ≠ "handle_many") →
  maintains (keeps_entry c a) (wrap_class bases d).
Proof.
  intros Hne. unfold wrap_class.
  repeat (apply maintains_bind; [apply _ | | intros _]).
  - by intros s.
  - intros s. unfold wrap_function_wrapper.
    destruct (getattr bases s (Class d) "handle"); [| done].
    unfold keeps_entry. simpl. rewrite lookup_insert_ne; [done |].
    intros [= -> <-]. destruct Hne as [? | [? ?]]; done.
  - intros s. unfold wrap_function_wrapper.
    destruct (getattr bases s (Class d) "handle_many"); [| done].
    unfold keeps_entry. simpl. rewrite lookup_insert_ne; [done |].
    intros [= -> <-]. destruct Hne as [? | [? ?]]; done.
Qed.

(** X7: whether it returns or raises, [_instrument] stores nothing in
    the dispatcher module except under ["_dispatch"] (the public
    [dispatch] is left alone), and nothing in any class table except
    under ["handle"] and ["handle_many"] of the classes it accepts. *)
Theorem instrument_touches_only_patched_slots s :
  (∀ k, k ≠ "_dispatch" →
     dispatcher (snd (_instrument handlers bases BaseEventHandler s)) !! k =
     dispatcher s !! k)
  ∧ (∀ c a,
       c ∉ discovered handlers bases BaseEventHandler
       ∨ (a ≠ "handle" ∧ a ≠ "handle_many") →
       class_dict (snd (_instrument handlers bases BaseEventHandler s)) !! (c, a) =
       class_dict s !! (c, a)).
Proof.
  split.
  - intros k Hk. change (keeps_slot k s (_instrument handlers bases BaseEventHandler s).2).
    rewrite instrument_as_loop. apply (maintains_bind (keeps_slot k)).
    + apply (maintains_weaken keeps_dispatcher).
      { intros x y Hxy. unfold keeps_dispatcher in Hxy. unfold keeps_slot.
        by rewrite Hxy. }
      apply maintains_for_each; [apply _ | apply _ |].
      intros c _. apply wrap_class_keeps_dispatcher.
    + intros _ s0. unfold wrap_function_wrapper, keeps_slot.
      destruct (getattr bases s0 DispatcherModule "_dispatch"); [| done].
      simpl. by rewrite lookup_insert_ne.
  - intros c a Hca.
    change (keeps_entry c a s (_instrument handlers bases BaseEventHandler s).2).
    rewrite instrument_as_loop. apply (maintains_bind (keeps_entry c a)).
    + apply maintains_for_each; [apply _ | apply _ |].
      intros d Hd. apply wrap_class_keeps_entry.
      destruct Hca as [Hc | Ha]; [left; by intros -> | by right].
    + intros _ s0. unfold wrap_function_wrapper.
      by destruct (getattr bases s0 DispatcherModule "_dispatch").
Qed.


(** ** What a returning [_instrument] has done *)

Lemma instrument_run s s' :
  _instrument handlers bases BaseEventHandler s = (Return tt, s') →
  ∃ s0 f,
    for_each (discovered handlers bases BaseEventHandler) (wrap_class bases) s =
      (Return tt, s0)
    ∧ dispatcher s !! "_dispatch" = Some f
    ∧ _instrumented_classes s0 =
        _instrumented_classes s ++ discovered handlers bases BaseEventHandler
    ∧ s' = {| class_dict := class_dict s0;
              dispatcher := <["_dispatch" := FunctionWrapper f dispatch_wrapper_fn]>
                              (dispatcher s);
              _instrumented_classes := _instrumented_classes s0 |}.
Proof.
  rewrite instrument_as_loop. unfold mbind, patch_bind.
  destruct (for_each _ (wrap_class bases) s) as [[[] | e] s0] eqn:Hloop; [| done].
  pose proof Hloop as Hrun. apply wrap_classes_run in Hrun as (Hl & Hp & _).
  unfold wrap_function_wrapper. simpl. rewrite Hp.
  destruct (dispatcher s !! "_dispatch") as [f |] eqn:Hf; [| done].
  intros [= <-]. exists s0, f. by rewrite Hp.
Qed.

Lemma own_layers_le_getattr s c a f :
  getattr bases s (Class c) a = Some f → own_layers s c a ≤ layers f.
Proof.
  unfold getattr, getmro, own_layers. simpl.
  destruct (class_dict s !! (c, a)) as [x |]; simpl; [| lia].
  intros [= ->]. lia.
Qed.

Lemma own_layers_getattr s c a n :
  S n ≤ own_layers s c a →
  ∃ g, getattr bases s (Class c) a = Some g ∧ S n ≤ layers g.
Proof.
  unfold own_layers. destruct (class_dict s !! (c, a)) as [g |] eqn:Hg; simpl.
  - intros Hn. exists g. split; [by apply getattr_class_own | done].
  - lia.
Qed.

Lemma wrap_classes_own_layers l s s' :
  for_each l (wrap_class bases) s = (Return tt, s') →
  ∀ c a, a = "handle" ∨ a = "handle_many" →
    own_layers s c a ≤ own_layers s' c a
    ∧ (c ∈ l → own_layers s c a < own_layers s' c a).
Proof.
  revert s. induction l as [| c0 l IH]; intros s.
  - intros [= <-] c a _. split; [done |]. by intros ?%elem_of_nil.
  - cbn [for_each]. unfold mbind, patch_bind.
    destruct (wrap_class bases c0 s) as [[[] | e] s1] eqn:Hc; [| done].
    intros Hrest c a Ha.
    apply wrap_class_run in Hc as (f & g & Hf & Hg & Hd1 & _ & _).
    destruct (IH s1 Hrest c a Ha) as [Hmono Hstrict].
    assert (Hstep : own_layers s c a ≤ own_layers s1 c a
                    ∧ (c = c0 → own_layers s c a < own_layers s1 c a)).
    { unfold own_layers at 2 4. rewrite Hd1.
      destruct (decide (c = c0)) as [-> | Hne].
      - destruct Ha as [-> | ->].
        + rewrite lookup_insert_ne by congruence. rewrite lookup_insert_eq. simpl.
          pose proof (own_layers_le_getattr s c0 "handle" f Hf). lia.
        + rewrite lookup_insert_eq. simpl.
          pose proof (own_layers_le_getattr s c0 "handle_many" g Hg). lia.
      - rewrite !lookup_insert_ne by congruence.
        fold (own_layers s c a). split; [lia | done]. }
    destruct Hstep as [Hle Hlt]. split; [lia |].
    intros [-> | Hin]%elem_of_cons.
    + specialize (Hlt eq_refl). lia.
    + specialize (Hstrict Hin). lia.
Qed.

(** X8: two [_instrument] calls in a row, both returning, record every
    accepted class a second time, put a second dispatch wrapper around
    the first on [_dispatch], and leave at least two wrappers on [handle]
    and [handle_many] of every accepted class. *)
Theorem instrument_twice_wraps_twice s s1 s2 :
  _instrument handlers bases BaseEventHandler s = (Return tt, s1) →
  _instrument handlers bases BaseEventHandler s1 = (Return tt, s2) →
  _instrumented_classes s2 =
    _instrumented_classes s ++ discovered handlers bases BaseEventHandler
      ++ discovered handlers bases BaseEventHandler
  ∧ (∃ f, dispatcher s !! "_dispatch" = Some f
          ∧ dispatcher s2 !! "_dispatch" = Some (wrapn 2 dispatch_wrapper_fn f))
  ∧ ∀ c a, c ∈ discovered handlers bases BaseEventHandler →
           a = "handle" ∨ a = "handle_many" →
           ∃ g, getattr bases s2 (Class c) a = Some g ∧ 2 ≤ layers g.
Proof.
  intros H1 H2.
  apply instrument_run in H1 as (t1 & f1 & Hloop1 & Hf1 & Hl1 & ->).
  apply instrument_run in H2 as (t2 & f2 & Hloop2 & Hf2 & Hl2 & ->).
  simpl in Hf2. rewrite lookup_insert_eq in Hf2. injection Hf2 as <-.
  split.
  { simpl in Hl2 |- *. by rewrite Hl2, Hl1, <- app_assoc. }
  split.
  { exists f1. split; [done |]. simpl. by rewrite lookup_insert_eq. }
  intros c a Hc Ha.
  destruct (wrap_classes_own_layers _ _ _ Hloop1 c a Ha) as [_ Hlt1].
  destruct (wrap_classes_own_layers _ _ _ Hloop2 c a Ha) as [_ Hlt2].
  specialize (Hlt1 Hc). specialize (Hlt2 Hc).
  change (own_layers {| class_dict := class_dict t1;
                        dispatcher := <["_dispatch" :=
                                          FunctionWrapper f1 dispatch_wrapper_fn]>
                                        (dispatcher s);
                        _instrumented_classes := _instrumented_classes t1 |} c a)
    with (own_layers t1 c a) in Hlt2.
  destruct (own_layers_getattr t2 c a 1) as (g & Hg & Hn); [lia |].
  exists g. split; [exact Hg | exact Hn].
Qed.

(** X9: [_uninstrument] does not clear the instrumentor's list (for any
    [unwrap] that leaves the list alone), so an [_instrument] after it
    records every accepted class a second time. *)
Theorem reinstall_after_uninstall_records_twice u s s1 s3 :
  (∀ t a, maintains keeps_recorded (u t a)) →
  _instrument handlers bases BaseEventHandler s = (Return tt, s1) →
  _instrument handlers bases BaseEventHandler (snd (_uninstrument u s1)) =
    (Return tt, s3) →
  _instrumented_classes (snd (_uninstrument u s1)) = _instrumented_classes s1
  ∧ _instrumented_classes s3 =
      _instrumented_classes s ++ discovered handlers bases BaseEventHandler
        ++ discovered handlers bases BaseEventHandler.
Proof.
  intros Hu H1 H3.
  assert (Hkept : keeps_recorded s1 (_uninstrument u s1).2).
  { rewrite uninstrument_as_loop. apply (maintains_bind keeps_recorded).
    - apply maintains_for_each; [apply _ | apply _ |].
      intros c _. unfold unwrap_class.
      apply maintains_bind; [apply _ | apply Hu | intros _; apply Hu].
    - intros _. apply Hu. }
  split; [exact Hkept |].
  apply instrument_run in H1 as (t1 & f1 & _ & _ & Hl1 & ->).
  apply instrument_run in H3 as (t3 & f3 & _ & _ & Hl3 & ->).
  unfold keeps_recorded in Hkept. simpl in Hkept, Hl3 |- *.
  by rewrite Hl3, Hkept, Hl1, <- app_assoc.
Qed.

(** ** When [_instrument] returns *)

Lemma find_in_mro_is_Some d mro base attr :
  base ∈ mro → is_Some (d !! (base, attr)) → is_Some (find_in_mro d mro attr).
Proof.
  induction mro as [| c mro IH]; [by intros ?%elem_of_nil |].
  intros [-> | Hin]%elem_of_cons Hb; simpl.
  - destruct Hb as [f ->]. by exists f.
  - destruct (d !! (c, attr)); [by eexists | by apply IH].
Qed.

Lemma wrap_classes_return l s :
  (∀ c, c ∈ l → BaseEventHandler ∈ getmro bases c ∧ c ≠ BaseEventHandler) →
  is_Some (class_dict s !! (BaseEventHandler, "handle")) →
  is_Some (class_dict s !! (BaseEventHandler, "handle_many")) →
  ∃ s', for_each l (wrap_class bases) s = (Return tt, s').
Proof.
  revert s. induction l as [| c l IH]; intros s Hl Hh Hm; [by exists s |].
  destruct (Hl c) as [Hsub Hne]; [by left |].
  destruct (find_in_mro_is_Some (class_dict s) (getmro bases c)
              BaseEventHandler "handle" Hsub Hh) as [f Hf].
  destruct (find_in_mro_is_Some (class_dict s) (getmro bases c)
              BaseEventHandler "handle_many" Hsub Hm) as [g Hg].
  cbn [for_each]. unfold mbind, patch_bind.
  rewrite (wrap_class_returns c s f g Hf Hg).
  apply IH.
  - intros d Hd. apply Hl. by right.
  - simpl. by rewrite !lookup_insert_ne by congruence.
  - simpl. by rewrite !lookup_insert_ne by congruence.
Qed.

Lemma discovered_subclasses c :
  c ∈ discovered handlers bases BaseEventHandler →
  BaseEventHandler ∈ getmro bases c ∧ c ≠ BaseEventHandler.
Proof.
  intros (_ & Hsub & Hne)%elem_of_discovered. split; [| done].
  unfold issubclass in Hsub. by apply bool_decide_eq_true in Hsub.
Qed.

(** X11: [_instrument] returns normally whenever [BaseEventHandler]
    itself defines [handle] and [handle_many] and the dispatcher module
    has a [_dispatch]: every accepted class then resolves both methods,
    through the base class if not before. *)
Theorem instrument_returns s :
  is_Some (class_dict s !! (BaseEventHandler, "handle")) →
  is_Some (class_dict s !! (BaseEventHandler, "handle_many")) →
  is_Some (dispatcher s !! "_dispatch") →
  ∃ s', _instrument handlers bases BaseEventHandler s = (Return tt, s').
Proof.
  intros Hh Hm [f Hf].
  destruct (wrap_classes_return (discovered handlers bases BaseEventHandler) s
              discovered_subclasses Hh Hm) as [s0 Hloop].
  pose proof Hloop as Hrun. apply wrap_classes_run in Hrun as (_ & Hp & _).
  eexists. rewrite instrument_as_loop. unfold mbind, patch_bind.
  rewrite Hloop. unfold wrap_function_wrapper. simpl. rewrite Hp, Hf.
  reflexivity.
Qed.

(** X12: when the dispatcher module has no [_dispatch],
    [_instrument] raises [AttributeError], and it does so only after the
    class loop has run: every accepted class has already been recorded
    and still carries the wrappers the loop put on it. *)
Theorem instrument_missing_dispatch_raises s :
  is_Some (class_dict s !! (BaseEventHandler, "handle")) →
  is_Some (class_dict s !! (BaseEventHandler, "handle_many")) →
  dispatcher s !! "_dispatch" = None →
  ∃ s', _instrument handlers bases BaseEventHandler s = (Raise AttributeError, s')
        ∧ _instrumented_classes s' =
            _instrumented_classes s ++ discovered handlers bases BaseEventHandler
        ∧ ∀ c a, c ∈ discovered handlers bases BaseEventHandler →
                 a = "handle" ∨ a = "handle_many" →
                 ∃ g, getattr bases s' (Class c) a = Some g ∧ 1 ≤ layers g.
Proof.
  intros Hh Hm Hnone.
  destruct (wrap_classes_return (discovered handlers bases BaseEventHandler) s
              discovered_subclasses Hh Hm) as [s0 Hloop].
  pose proof Hloop as Hrun. apply wrap_classes_run in Hrun as (Hl & Hp & _).
  exists s0. split; [| split; [exact Hl |]].
  - rewrite instrument_as_loop. unfold mbind, patch_bind.
    rewrite Hloop. unfold wrap_function_wrapper. simpl. by rewrite Hp, Hnone.
  - intros c a Hc Ha.
    destruct (wrap_classes_own_layers _ _ _ Hloop c a Ha) as [_ Hlt].
    apply own_layers_getattr. specialize (Hlt Hc). lia.
Qed.

(** ** As many wrappers as listings *)

Lemma wrapn_inner n w f :
  wrapn n w (FunctionWrapper f w) = FunctionWrapper (wrapn n w f) w.
Proof. induction n as [| n IH]; simpl; [done | by rewrite IH]. Qed.

Lemma listings_cons_eq c l : listings c (c :: l) = S (listings c l).
Proof. unfold listings. simpl. by rewrite bool_decide_eq_true_2. Qed.

Lemma listings_cons_ne c d l : d ≠ c → listings c (d :: l) = listings c l.
Proof. intros H. unfold listings. simpl. by rewrite bool_decide_eq_false_2. Qed.

Lemma listings_not_elem c l : c ∉ l → listings c l = 0.
Proof.
  induction l as [| d l IH]; [done |].
  intros [Hne Hl]%not_elem_of_cons.
  rewrite listings_cons_ne by congruence. by apply IH.
Qed.

Lemma wrap_classes_listings l s s' :
  for_each l (wrap_class bases) s = (Return tt, s') →
  unrelated bases l →
  ∀ c a, c ∈ l → a = "handle" ∨ a = "handle_many" →
    ∃ f, getattr bases s (Class c) a = Some f
         ∧ class_dict s' !! (c, a) =
             Some (wrapn (listings c l) (wrapper_for a) f).
Proof.
  revert s. induction l as [| c0 l IH]; intros s.
  - intros _ _ c a Hc. by apply elem_of_nil in Hc.
  - cbn [for_each]. unfold mbind, patch_bind.
    destruct (wrap_class bases c0 s) as [[[] | e] s1] eqn:Hc0; [| done].
    intros Hrest Hun c a Hc Ha.
    pose proof (wrap_classes_run bases l s1 s' Hrest) as (_ & _ & Hframe & _).
    apply wrap_class_run in Hc0 as (f & g & Hf & Hg & Hd1 & _ & _).
    assert (Hun' : unrelated bases l).
    { intros x y Hx Hy. apply Hun; by right. }
    assert (Hown : ∃ f0, getattr bases s (Class c0) a = Some f0
                         ∧ class_dict s1 !! (c0, a) =
                             Some (FunctionWrapper f0 (wrapper_for a))).
    { rewrite Hd1. destruct Ha as [-> | ->].
      - exists f. split; [done |].
        rewrite lookup_insert_ne by congruence. by rewrite lookup_insert_eq.
      - exists g. split; [done |]. by rewrite lookup_insert_eq. }
    destruct (decide (c = c0)) as [-> | Hne].
    + destruct Hown as (f0 & Hf0 & Hs1). exists f0. split; [done |].
      rewrite listings_cons_eq.
      destruct (decide (c0 ∈ l)) as [Hin | Hnin].
      * destruct (IH s1 Hrest Hun' c0 a Hin Ha) as (f1 & Hf1 & Hs').
        rewrite (getattr_class_own bases s1 c0 a _ Hs1) in Hf1.
        injection Hf1 as <-. rewrite Hs'. by rewrite wrapn_inner.
      * rewrite (listings_not_elem c0 l Hnin). simpl.
        by rewrite Hframe.
    + apply elem_of_cons in Hc as [-> | Hc]; [done |].
      rewrite listings_cons_ne by congruence.
      destruct (IH s1 Hrest Hun' c a Hc Ha) as (f1 & Hf1 & Hs').
      exists f1. split; [| done].
      rewrite <- Hf1. symmetry. apply getattr_class_frame.
      intros d [-> | Hd]%elem_of_cons.
      * rewrite Hd1, !lookup_insert_ne by congruence. done.
      * assert (d ≠ c0).
        { intros ->. revert Hd. apply Hun; [by right | by left | done]. }
        rewrite Hd1, !lookup_insert_ne by congruence. done.
Qed.

(** X13: when no accepted class inherits from another accepted class, an
    [_instrument] that returns leaves on [handle] and [handle_many] of
    every accepted class exactly as many wrappers as the class has
    listings in the handlers namespace, around the function the method
    resolved to before. *)
Theorem instrument_layers_count_listings s s' :
  unrelated bases (discovered handlers bases BaseEventHandler) →
  _instrument handlers bases BaseEventHandler s = (Return tt, s') →
  ∀ c a, c ∈ discovered handlers bases BaseEventHandler →
         a = "handle" ∨ a = "handle_many" →
    ∃ f, getattr bases s (Class c) a = Some f
         ∧ getattr bases s' (Class c) a =
             Some (wrapn (listings c (discovered handlers bases BaseEventHandler))
                     (wrapper_for a) f).
Proof.
  intros Hun (s0 & f0 & Hloop & _ & _ & ->)%instrument_run c a Hc Ha.
  destruct (wrap_classes_listings _ _ _ Hloop Hun c a Hc Ha) as (f & Hf & Hs0).
  exists f. split; [done |]. by apply getattr_class_own.
Qed.

End MoreLifecycle.

(** ** The older copy of [_instrument] *)

Section LegacyLifecycle.

Variable handlers : list (string * Member).
Variable bases : string → list string.
Variable BaseEventHandler : string.

Lemma legacy_instrument_member_class name class_ :
  Legacy.instrument_member bases BaseEventHandler (name, MClass class_) =
  if issubclass bases class_ BaseEventHandler
  then wrap_class bases class_ else mret tt.
Proof. reflexivity. Qed.

Lemma legacy_instrument_members_accepted (l : list (string * Member)) s :
  (∀ member, member ∈ l → isclass member.2 = true) →
  for_each l (Legacy.instrument_member bases BaseEventHandler) s =
  for_each
    (omap (λ member : string * Member,
             match member.2 with
             | MClass class_ =>
                 if issubclass bases class_ BaseEventHandler
                 then Some class_ else None
             | _ => None
             end) l)
    (wrap_class bases) s.
Proof.
  revert s. induction l as [| [n m] l IH]; intros s Hcls; [done |].
  assert (Hm : isclass m = true) by (apply (Hcls (n, m)); by left).
  assert (Hl : ∀ member, member ∈ l → isclass member.2 = true)
    by (intros ? ?; apply Hcls; by right).
  destruct m as [| c |]; try discriminate.
  cbn [for_each omap list_omap]. rewrite legacy_instrument_member_class. cbn [snd].
  destruct (issubclass bases c BaseEventHandler).
  - cbn [for_each]. apply patch_bind_ext. intros [] s1. by apply IH.
  - unfold mbind at 1, patch_bind; simpl. by apply IH.
Qed.

Lemma legacy_instrument_as_loop s :
  Legacy._instrument handlers bases BaseEventHandler s =
  for_each (legacy_discovered handlers bases BaseEventHandler) (wrap_class bases) s.
Proof.
  unfold Legacy._instrument.
  rewrite (for_each_flat_map
             (λ module : string * Member, getmembers (namespace module.2) isclass)
             (getmembers handlers ismodule)
             (Legacy.instrument_member bases BaseEventHandler) s).
  fold (candidates handlers).
  rewrite legacy_instrument_members_accepted
    by (intros member; apply candidates_isclass).
  reflexivity.
Qed.

Lemma base_in_legacy_discovered :
  reachable handlers BaseEventHandler →
  BaseEventHandler ∈ legacy_discovered handlers bases BaseEventHandler.
Proof.
  intros (mn & ms & n & Hmod & Hcls).
  unfold legacy_discovered, candidates, getmembers.
  apply list_elem_of_omap. exists (n, MClass BaseEventHandler). split.
  - apply list_elem_of_In, in_flat_map. exists (mn, MModule ms). split.
    + apply filter_In. split; [by apply list_elem_of_In | done].
    + apply filter_In. split; [by apply list_elem_of_In | done].
  - simpl. unfold issubclass, getmro.
    rewrite bool_decide_eq_true_2; [done | by left].
Qed.

(** X14: the older copy of [_instrument] accepts [BaseEventHandler]
    itself: whenever the base class is reachable from the handlers
    namespace and the call returns, the base class has been recorded and
    its own [handle] and [handle_many] carry at least one wrapper. *)
Theorem legacy_instrument_wraps_base_class s s' :
  reachable handlers BaseEventHandler →
  Legacy._instrument handlers bases BaseEventHandler s = (Return tt, s') →
  BaseEventHandler ∈ _instrumented_classes s'
  ∧ ∀ a, a = "handle" ∨ a = "handle_many" →
         ∃ g, class_dict s' !! (BaseEventHandler, a) = Some g ∧ 1 ≤ layers g.
Proof.
  intros Hbase%base_in_legacy_discovered. rewrite legacy_instrument_as_loop.
  intros Hloop. split.
  - apply wrap_classes_run in Hloop as (-> & _).
    apply elem_of_app. by right.
  - intros a Ha.
    destruct (wrap_classes_own_layers bases _ _ _ Hloop BaseEventHandler a Ha)
      as [_ Hlt].
    specialize (Hlt Hbase). unfold own_layers in Hlt.
    destruct (class_dict s' !! (BaseEventHandler, a)) as [g |]; simpl in Hlt.
    + exists g. split; [done | lia].
    + lia.
Qed.

(** X15: the older copy of [_instrument] never stores anything in the
    dispatcher module, whether it returns or raises: it wraps no dispatch
    function at all. *)
Theorem legacy_instrument_leaves_dispatcher s :
  dispatcher (snd (Legacy._instrument handlers bases BaseEventHandler s)) =
  dispatcher s.
Proof.
  change (keeps_dispatcher s
            (Legacy._instrument handlers bases BaseEventHandler s).2).
  rewrite legacy_instrument_as_loop.
  apply maintains_for_each; [apply _ | apply _ |].
  intros c _. apply wrap_class_keeps_dispatcher.
Qed.

End LegacyLifecycle.

(** ** The further properties on the small process *)

Lemma unwrap_keeps_recorded bases t a :
  maintains keeps_recorded (unwrap bases t a).
Proof.
  intros s. unfold unwrap.
  destruct (getattr bases s t a) as [[] |]; try done. by destruct t.
Qed.

Lemma demo_shared_discovered :
  discovered Demo.handlers_shared Demo.bases Demo.Base =
  [Demo.Echo; Demo.Local; Demo.Local].
Proof. vm_compute. reflexivity. Qed.

Lemma demo_shared_unrelated :
  unrelated Demo.bases (discovered Demo.handlers_shared Demo.bases Demo.Base).
Proof.
  rewrite demo_shared_discovered. intros c d Hc Hd Hne Hin.
  apply list_elem_of_In in Hc, Hd, Hin. simpl in Hc, Hd.
  destruct Hc as [<- | [<- | [<- | []]]], Hd as [<- | [<- | [<- | []]]];
    try done; vm_compute in Hin; intuition discriminate.
Qed.

Lemma demo_base_handle :
  is_Some (class_dict Demo.process !! (Demo.Base, "handle")).
Proof. exists (Function "BaseEventHandler.handle"). vm_compute. reflexivity. Qed.

Lemma demo_base_handle_many :
  is_Some (class_dict Demo.process !! (Demo.Base, "handle_many")).
Proof. exists (Function "BaseEventHandler.handle_many"). vm_compute. reflexivity. Qed.

Lemma demo_local_discovered :
  Demo.Local ∈ discovered Demo.handlers Demo.bases Demo.Base.
Proof. rewrite demo_discovered. apply list_elem_of_In. simpl. tauto. Qed.

Lemma instrument_appends_discovered_witness :
  _instrumented_classes
    (_instrument Demo.handlers_shared Demo.bases Demo.Base Demo.process).2 =
  [Demo.Echo; Demo.Local; Demo.Local].
Proof.
  rewrite (instrument_appends_discovered Demo.handlers_shared Demo.bases Demo.Base
             Demo.process
             (_instrument Demo.handlers_shared Demo.bases Demo.Base Demo.process).2).
  - rewrite demo_shared_discovered. reflexivity.
  - vm_compute. reflexivity.
Defined.

Lemma instrument_touches_only_patched_slots_witness :
  dispatcher (snd (_instrument Demo.handlers Demo.bases Demo.Base Demo.process))
    !! "dispatch" = Some (Function "dispatch")
  ∧ class_dict (snd (_instrument Demo.handlers Demo.bases Demo.Base Demo.process))
      !! (Demo.Base, "handle") = Some (Function "BaseEventHandler.handle").
Proof.
  destruct (instrument_touches_only_patched_slots
              Demo.handlers Demo.bases Demo.Base Demo.process) as [Hd Hc].
  split.
  - rewrite Hd by discriminate. vm_compute. reflexivity.
  - rewrite Hc.
    + vm_compute. reflexivity.
    + left. rewrite demo_discovered. intros Hin%list_elem_of_In.
      vm_compute in Hin. intuition discriminate.
Defined.

Lemma instrument_twice_wraps_twice_witness :
  let s1 := (_instrument Demo.handlers Demo.bases Demo.Base Demo.process).2 in
  let s2 := (_instrument Demo.handlers Demo.bases Demo.Base s1).2 in
  _instrumented_classes s2 = [Demo.Echo; Demo.Local; Demo.Echo; Demo.Local]
  ∧ dispatcher s2 !! "_dispatch" =
      Some (wrapn 2 dispatch_wrapper_fn (Function "_dispatch")).
Proof.
  intros s1 s2.
  destruct (instrument_twice_wraps_twice Demo.handlers Demo.bases Demo.Base
              Demo.process s1 s2) as (Hl & (f & Hf & Hd) & _).
  - vm_compute. reflexivity.
  - vm_compute. reflexivity.
  - split.
    + rewrite Hl, demo_discovered. reflexivity.
    + vm_compute in Hf. injection Hf as <-. exact Hd.
Defined.

Lemma reinstall_after_uninstall_records_twice_witness :
  let s1 := (_instrument Demo.handlers Demo.bases Demo.Base Demo.process).2 in
  let s2 := snd (_uninstrument (unwrap Demo.bases) s1) in
  let s3 := (_instrument Demo.handlers Demo.bases Demo.Base s2).2 in
  _instrumented_classes s2 = [Demo.Echo; Demo.Local]
  ∧ _instrumented_classes s3 = [Demo.Echo; Demo.Local; Demo.Echo; Demo.Local].
Proof.
  intros s1 s2 s3.
  destruct (reinstall_after_uninstall_records_twice
              Demo.handlers Demo.bases Demo.Base (unwrap Demo.bases)
              Demo.process s1 s3) as (H2 & H3).
  - apply unwrap_keeps_recorded.
  - vm_compute. reflexivity.
  - vm_compute. reflexivity.
  - split.
    + unfold s2. rewrite H2. vm_compute. reflexivity.
    + rewrite H3, demo_discovered. reflexivity.
Defined.


Lemma instrument_returns_witness :
  ∃ s', _instrument Demo.handlers_shared Demo.bases Demo.Base Demo.process =
        (Return tt, s').
Proof.
  apply (instrument_returns Demo.handlers_shared Demo.bases Demo.Base Demo.process).
  - exact demo_base_handle.
  - exact demo_base_handle_many.
  - exists (Function "_dispatch"). vm_compute. reflexivity.
Defined.

Lemma instrument_missing_dispatch_raises_witness :
  ∃ s',
    _instrument Demo.handlers Demo.bases Demo.Base
      {| class_dict := class_dict Demo.process;
         dispatcher := {["dispatch" := Function "dispatch"]};
         _instrumented_classes := [] |} = (Raise AttributeError, s')
    ∧ _instrumented_classes s' = [Demo.Echo; Demo.Local]
    ∧ ∃ g, getattr Demo.bases s' (Class Demo.Local) "handle" = Some g
           ∧ 1 ≤ layers g.
Proof.
  destruct (instrument_missing_dispatch_raises
              Demo.handlers Demo.bases Demo.Base
              {| class_dict := class_dict Demo.process;
                 dispatcher := {["dispatch" := Function "dispatch"]};
                 _instrumented_classes := [] |})
    as (s' & Hrun & Hl & Hw).
  - exact demo_base_handle.
  - exact demo_base_handle_many.
  - vm_compute. reflexivity.
  - exists s'. split; [exact Hrun |]. split.
    + rewrite Hl, demo_discovered. reflexivity.
    + apply Hw; [exact demo_local_discovered | by left].
Defined.

Lemma instrument_layers_count_listings_witness :
  getattr Demo.bases
    (_instrument Demo.handlers_shared Demo.bases Demo.Base Demo.process).2
    (Class Demo.Local) "handle" =
  Some (wrapn 2 handle_wrapper_fn (Function "LocalHandler.handle")).
Proof.
  destruct (instrument_layers_count_listings
              Demo.handlers_shared Demo.bases Demo.Base Demo.process
              (_instrument Demo.handlers_shared Demo.bases Demo.Base Demo.process).2
              demo_shared_unrelated)
    with (c := Demo.Local) (a := "handle") as (f & Hf & Hs').
  - vm_compute. reflexivity.
  - rewrite demo_shared_discovered. apply list_elem_of_In. simpl. tauto.
  - by left.
  - vm_compute in Hf. injection Hf as <-.
    rewrite Hs', demo_shared_discovered. reflexivity.
Defined.

Lemma legacy_instrument_wraps_base_class_witness :
  Demo.Base ∈
    _instrumented_classes
      (Legacy._instrument Demo.handlers Demo.bases Demo.Base Demo.process).2.
Proof.
  destruct (legacy_instrument_wraps_base_class
              Demo.handlers Demo.bases Demo.Base Demo.process
              (Legacy._instrument Demo.handlers Demo.bases Demo.Base Demo.process).2)
    as [Hin _].
  - exists "base",
      [("ABC", MClass "abc.ABC"); ("BaseEventHandler", MClass Demo.Base);
       ("asyncio", MModule [])],
      "BaseEventHandler".
    split; apply list_elem_of_In; simpl; tauto.
  - vm_compute. reflexivity.
  - exact Hin.
Defined.
